(** * The register repository of pyuavcan and its SQLite storage backend

    A shallow embedding of
    [pyuavcan/application/register/_repository.py] (class [Repository]) and
    [pyuavcan/application/register/storage/sqlite.py] (class
    [SQLiteStorage]).

    Python strings are sequences of code points; here they are Rocq strings,
    so the development covers the code points below 256.  The SQLite
    connection is a state that the methods thread explicitly; exceptions are
    outcomes of a small state-and-exception monad. *)

From Stdlib Require Import ZArith Ascii String List Bool Lia.
From Stdlib Require Import Init.Byte.
From stdpp Require Import base option list sorting gmap strings.

Local Open Scope Z_scope.

(** ** The Python built-ins the two classes rely on *)

Module Py.

(** [str.isspace] of one character, for code points below 256: the
    characters 0x09..0x0D, 0x1C..0x1F, 0x20, 0x85 and 0xA0. *)
Definition isspace (c : ascii) : bool :=
  let n := N_of_ascii c in
  ((9 <=? n) && (n <=? 13) || (28 <=? n) && (n <=? 32)
   || (n =? 133) || (n =? 160))%N.

(** [str.lower] of one character, for code points below 256: A..Z and the
    Latin-1 capitals 0xC0..0xDE (0xD7, the multiplication sign, apart) move
    up by 0x20. *)
Definition lower_char (c : ascii) : ascii :=
  let n := N_of_ascii c in
  if ((65 <=? n) && (n <=? 90)
      || (192 <=? n) && (n <=? 222) && negb (n =? 215))%N
  then ascii_of_N (n + 32) else c.

Fixpoint lower (s : string) : string :=
  match s with
  | EmptyString => EmptyString
  | String c s' => String (lower_char c) (lower s')
  end.

Fixpoint lstrip (s : string) : string :=
  match s with
  | EmptyString => EmptyString
  | String c s' => if isspace c then lstrip s' else s
  end.

Fixpoint rstrip (s : string) : string :=
  match s with
  | EmptyString => EmptyString
  | String c s' =>
      match rstrip s' with
      | EmptyString => if isspace c then EmptyString else String c EmptyString
      | r => String c r
      end
  end.

(** [str.strip()] without arguments. *)
Definition strip (s : string) : string := rstrip (lstrip s).

(** Truth value of a [str]: only the empty string is false. *)
Definition truthy (s : string) : bool :=
  match s with EmptyString => false | _ => true end.

(** [a or b] on strings. *)
Definition or_ (a b : string) : string := if truthy a then a else b.

(** [l[i]] on a list: a negative index counts from the end; [None] stands
    for [IndexError]. *)
Definition getitem {A} (l : list A) (i : Z) : option A :=
  let n := Z.of_nat (length l) in
  if 0 <=? i then l !! Z.to_nat i
  else if 0 <=? n + i then l !! Z.to_nat (n + i)
  else None.

(** Comparison of [str] values, the order of [sorted] and of SQLite's
    default BINARY collation alike: code point by code point. *)
Definition le (a b : string) : Prop := String.leb a b = true.

End Py.

(** ** What the two files import

    [uavcan.register.Value_1_0] is generated from DSDL, [convert] and
    [RelaxedValue] live in [_primitives.py], [serialize] and [deserialize] in
    [pyuavcan.dsdl], [fnmatchcase] in Python's [fnmatch].  None of them is
    part of the two files, so the embedding is parametric in them. *)

Class Imports := {
  (** objects of class [Value_1_0], a tagged union *)
  Value : Type;
  (** [Value()], whose populated variant is [empty] *)
  Value_empty : Value;
  (** what [Repository.set] accepts: a [Value] or a native Python value *)
  RelaxedValue : Type;
  (** every [Value] is a [RelaxedValue] *)
  relaxed : Value -> RelaxedValue;
  (** [convert(to, s)]: [None] when [s] does not fit the type of [to].  Its
      first argument is the [value] attribute of an [Entry] as it was read,
      which is [None] for a blob that could not be decoded. *)
  convert : option Value -> RelaxedValue -> option Value;
  (** the fragments of [pyuavcan.dsdl.serialize(obj)], joined *)
  serialize : option Value -> list byte;
  (** [pyuavcan.dsdl.deserialize(Value, [memoryview(blob)])]: [None] for an
      invalid serialized representation *)
  deserialize : list byte -> option Value;
  (** [fnmatch.fnmatchcase(name, pattern)] *)
  fnmatchcase : string -> string -> bool
}.

(** [Entry], the unit of storage: a value and the mutability flag. *)
Record Entry `{Imports} := mkEntry { value : option Value; mutable : bool }.
Arguments mkEntry {_} value mutable.
Arguments value {_} e.
Arguments mutable {_} e.

(** ** The SQLite connection *)

(** One row of table [register]: column [mutable] (SQLite keeps a boolean as
    an integer) and column [value] (a blob).  Column [name] is the key of the
    table below; column [ts] is filled in by the engine and never read. *)
Record Row := mkRow { row_mutable : Z; row_value : list byte }.

(** A statement that changed the table. *)
Inductive Write :=
| Upsert (name : string) (r : Row)
| Remove (name : string).

(** What the engine answers to a call ([connect], [execute], [executemany],
    [commit], a fetch from a cursor): it does the work, or raises
    [sqlite3.OperationalError] (locked database, disk failure, interrupt), or
    raises another error of [sqlite3] (a [DatabaseError] that is not
    operational: corrupt file, [ProgrammingError] on a closed connection). *)
Inductive Answer :=
| Done
| Operational
| Other.

(** The connection [self._db] as the methods see it: the rows of table
    [register], the writes executed so far (oldest first), and what the engine
    will answer to the coming calls; a call past the end of the list
    succeeds. *)
Record Conn := mkConn {
  table : gmap string Row;
  journal : list Write;
  faults : list Answer
}.

(** A connection whose engine never fails and that has written nothing yet. *)
Definition healthy (t : gmap string Row) : Conn := mkConn t [] [].

(** [DatabaseError] stands for every error of [sqlite3] that is not an
    [OperationalError]. *)
Inductive Exception :=
| OperationalError
| DatabaseError
| StorageError
| MissingRegisterError (name : string)
| ConflictError
| IndexError.

Inductive Outcome (A : Type) :=
| Return (a : A)
| Raise (ex : Exception).
Arguments Return {A} a.
Arguments Raise {A} ex.

(** A method body: from the connection to an outcome and the connection
    afterwards. *)
Definition M (A : Type) : Type := Conn -> Outcome A * Conn.

Definition ret {A} (a : A) : M A := fun c => (Return a, c).
Definition raise {A} (ex : Exception) : M A := fun c => (Raise ex, c).
Definition bind {A B} (m : M A) (k : A -> M B) : M B :=
  fun c => match m c with
           | (Return a, c') => k a c'
           | (Raise ex, c') => (Raise ex, c')
           end.

(** [try: m except ...: handler]: [handler ex] is [None] when no [except]
    clause matches [ex]. *)
Definition try_except {A} (m : M A) (handler : Exception -> option (M A)) : M A :=
  fun c => match m c with
           | (Return a, c') => (Return a, c')
           | (Raise ex, c') =>
               match handler ex with
               | Some h => h c'
               | None => (Raise ex, c')
               end
           end.

Declare Scope py_scope.
Delimit Scope py_scope with py.
Notation "x <- m ;; k" := (bind m (fun x => k))
  (at level 100, m at next level, right associativity) : py_scope.
Notation "m ;;; k" := (bind m (fun _ => k))
  (at level 100, right associativity) : py_scope.

Module Sqlite3.
Local Open Scope py_scope.

(** Every call into the engine consumes one answer of [faults]. *)
Definition call : M unit := fun c =>
  match faults c with
  | Operational :: fs => (Raise OperationalError, mkConn (table c) (journal c) fs)
  | Other :: fs => (Raise DatabaseError, mkConn (table c) (journal c) fs)
  | Done :: fs => (Return tt, mkConn (table c) (journal c) fs)
  | [] => (Return tt, c)
  end.

(** A cursor over the result of a statement. *)
Record Cursor (A : Type) := mkCursor { result : A }.
Arguments mkCursor {A} result.
Arguments result {A} c.

(** [sqlite3.connect(database, timeout)] *)
Definition connect (database : string) : M unit := call.

(** [cursor.fetchone()] and [cursor.fetchall()]: a call into the engine of
    its own, after the [execute] that made the cursor. *)
Definition fetch {A} (cur : Cursor A) : M A :=
  call ;;; ret (result cur).

Definition apply_write (w : Write) (t : gmap string Row) : gmap string Row :=
  match w with
  | Upsert name r => <[name := r]> t
  | Remove name => base.delete name t
  end.

(** [execute] of a select. *)
Definition query {A} (f : gmap string Row -> A) : M (Cursor A) :=
  call ;;; fun c => (Return (mkCursor (f (table c))), c).

(** [execute] of a statement that changes rows. *)
Definition update (w : Write) : M (Cursor unit) :=
  call ;;; fun c =>
    (Return (mkCursor tt),
     mkConn (apply_write w (table c)) (journal c ++ [w]) (faults c)).

(** [self._db.commit()] *)
Definition commit : M unit := call.

Global Instance le_dec a b : Decision (Py.le a b).
Proof. unfold Py.le. apply _. Defined.

(** [select count( * ) from register] *)
Definition select_count : M (Cursor Z) :=
  query (fun t => Z.of_nat (size t)).

(** [select name from register order by name] *)
Definition select_names : M (Cursor (list string)) :=
  query (fun t => merge_sort Py.le (fst <$> map_to_list t)).

(** [select mutable, value from register where name = ?] *)
Definition select_row (name : string) : M (Cursor (option (Z * list byte))) :=
  query (fun t => (fun r => (row_mutable r, row_value r)) <$> t !! name).

(** [insert or replace into register (name, mutable, value) values (?, ?, ?)];
    the adapter of [sqlite3] stores [True] as 1 and [False] as 0 *)
Definition insert_or_replace (name : string) (mutable : bool) (blob : list byte)
  : M (Cursor unit) :=
  update (Upsert name (mkRow (Z.b2z mutable) blob)).

(** [delete from register where name = ?] *)
Definition delete_row (name : string) : M (Cursor unit) :=
  update (Remove name).

(** [executemany(statement, names)] *)
Fixpoint executemany (statement : string -> M (Cursor unit)) (names : list string)
  : M unit :=
  match names with
  | [] => ret tt
  | x :: rest => statement x ;;; executemany statement rest
  end.
End Sqlite3.

(** ** Class [SQLiteStorage] *)

Module SQLiteStorage.
Section methods.
Context `{Imports}.
Local Open Scope py_scope.

Definition _LOCATION_VOLATILE : string := ":memory:".

(** [_execute(statement, *params, commit)]: the result is the cursor; what
    is fetched from it is fetched by the caller, outside the [try]. *)
Definition _execute {A} (statement : M (Sqlite3.Cursor A)) (commit : bool)
  : M (Sqlite3.Cursor A) :=
  try_except
    (cur <- statement ;;
     (if commit then Sqlite3.commit else ret tt) ;;;
     ret cur)
    (fun ex => match ex with
               | OperationalError => Some (raise StorageError)
               | _ => None
               end).

Definition count : M Z :=
  cur <- _execute Sqlite3.select_count false ;;
  Sqlite3.fetch cur.

Definition get_names : M (list string) :=
  cur <- _execute Sqlite3.select_names false ;;
  Sqlite3.fetch cur.

Definition get_name_at_index (index : Z) : M (option string) :=
  try_except
    (names <- get_names ;;
     match Py.getitem names index with
     | Some x => ret (Some x)
     | None => raise IndexError
     end)
    (fun ex => match ex with
               | IndexError => Some (ret None)
               | _ => None
               end).

Definition get (name : string) : M (option Entry) :=
  cur <- _execute (Sqlite3.select_row name) false ;;
  res <- Sqlite3.fetch cur ;;
  match res with
  | None => ret None
  | Some (mutable, value) =>
      (* [obj is None] is only logged *)
      let obj := deserialize value in
      ret (Some (mkEntry obj (negb (mutable =? 0))))
  end.

Definition set (name : string) (e : Entry) : M unit :=
  let serialized := serialize (value e) in
  _execute (Sqlite3.insert_or_replace name (mutable e) serialized) true ;;;
  ret tt.

Definition delete (names : list string) : M unit :=
  try_except
    (Sqlite3.executemany Sqlite3.delete_row names ;;;
     Sqlite3.commit)
    (fun ex => match ex with
               | OperationalError => Some (raise StorageError)
               | _ => None
               end).

(** [create table if not exists register (...)]: the table of the model is
    always there, so only the call into the engine remains. *)
Definition create_table : M (Sqlite3.Cursor unit) :=
  Sqlite3.call ;;; ret (Sqlite3.mkCursor tt).

(** [__init__(location)]; the state is the connection that
    [sqlite3.connect(self._loc)] gives when it succeeds, and the result is
    [self._loc]. *)
Definition __init__ (location : string) : M string :=
  let _loc := Py.strip (Py.or_ location _LOCATION_VOLATILE) in
  Sqlite3.connect _loc ;;;
  _execute create_table true ;;;
  (* the argument of the debug message *)
  get_names ;;;
  ret _loc.

(** Property [persistent] of a storage whose [_loc] is given. *)
Definition persistent (_loc : string) : bool :=
  negb (String.eqb (Py.lower _loc) _LOCATION_VOLATILE).

End methods.
End SQLiteStorage.

(** ** Class [Repository], over an [SQLiteStorage] backend *)

Module Repository.
Section methods.
Context `{Imports}.
Local Open Scope py_scope.

(** Property [persistent], for a backend whose [_loc] is given. *)
Definition persistent (_loc : string) : bool := SQLiteStorage.persistent _loc.

Definition keys : M (list string) := SQLiteStorage.get_names.

Definition get_name_at_index (index : Z) : M (option string) :=
  SQLiteStorage.get_name_at_index index.

Definition get (name : string) : M (option Entry) := SQLiteStorage.get name.

(** [not e] and [not converted] test for [None]: an [Entry] and a [Value] are
    plain objects, true as any object without [__bool__] or [__len__]. *)
Definition set (name : string) (v : RelaxedValue) : M unit :=
  e <- SQLiteStorage.get name ;;
  match e with
  | None => raise (MissingRegisterError name)
  | Some e =>
      match convert (value e) v with
      | None => raise ConflictError
      | Some converted =>
          SQLiteStorage.set name (mkEntry (Some converted) (mutable e))
      end
  end.

Definition create (name : string) (v : Value) (mutable : bool) : M unit :=
  try_except
    (set name (relaxed v))
    (fun ex => match ex with
               | MissingRegisterError _ =>
                   Some (SQLiteStorage.set name (mkEntry (Some v) mutable))
               | _ => None
               end).

(** [e.mutable and converted] holds when the flag is true and [converted] is
    not [None]. *)
Definition access (name : string) (v : Value) : M Entry :=
  e <- SQLiteStorage.get name ;;
  match e with
  | None => ret (mkEntry (Some Value_empty) false)
  | Some e =>
      let converted := convert (value e) (relaxed v) in
      match mutable e, converted with
      | true, Some converted =>
          let e := mkEntry (Some converted) (mutable e) in
          SQLiteStorage.set name e ;;;
          ret e
      | _, _ => ret e
      end
  end.

Definition delete (wildcard : string) : M unit :=
  all <- keys ;;
  let names := List.filter (fun n => fnmatchcase n wildcard) all in
  SQLiteStorage.delete names.

Definition __getitem__ (item : string) : M Entry :=
  e <- get item ;;
  match e with
  | None => raise (MissingRegisterError item)
  | Some e => ret e
  end.

(** [__iter__] is an iterator over the list from [keys()]. *)
Definition __iter__ : M (list string) := keys.

Definition __len__ : M Z := SQLiteStorage.count.

End methods.
End Repository.

(** ** Vocabulary of the statements *)

(** A string of white space only. *)
Fixpoint blank (s : string) : bool :=
  match s with
  | EmptyString => true
  | String c s' => Py.isspace c && blank s'
  end.

(** A string whose last character is not white space. *)
Fixpoint ends_solid (s : string) : bool :=
  match s with
  | EmptyString => false
  | String c EmptyString => negb (Py.isspace c)
  | String _ s' => ends_solid s'
  end.

(** The names of a table in the order of [select name ... order by name]. *)
Definition names_of (t : gmap string Row) : list string :=
  merge_sort Py.le (fst <$> map_to_list t).

Section vocabulary.
Context `{Imports}.
Local Open Scope py_scope.

(** The [Entry] that [SQLiteStorage.get] builds from a row. *)
Definition decode (r : Row) : Entry :=
  mkEntry (deserialize (row_value r)) (negb (row_mutable r =? 0)).

(** The row that [SQLiteStorage.set] writes for an [Entry]. *)
Definition encode (e : Entry) : Row :=
  mkRow (Z.b2z (mutable e)) (serialize (value e)).

(** A call of one of the methods of [Repository] that write. *)
Inductive Call :=
| CallSet (name : string) (v : RelaxedValue)
| CallCreate (name : string) (v : Value) (mutable : bool)
| CallAccess (name : string) (v : Value)
| CallDelete (wildcard : string).

(** The call, its result dropped; an exception still propagates. *)
Definition perform (call : Call) : M unit :=
  match call with
  | CallSet name v => Repository.set name v
  | CallCreate name v mutable => Repository.create name v mutable
  | CallAccess name v => Repository.access name v ;;; ret tt
  | CallDelete wildcard => Repository.delete wildcard
  end.

(** A sequence of calls, each in a [try] whose [except Exception] passes. *)
Fixpoint script (calls : list Call) : M unit :=
  match calls with
  | [] => ret tt
  | call :: rest =>
      try_except (perform call) (fun _ => Some (ret tt)) ;;;
      script rest
  end.

(** The table after deleting [names] one by one. *)
Definition without (names : list string) (t : gmap string Row) : gmap string Row :=
  foldl (fun t n => base.delete n t) t names.

End vocabulary.

(** ** A small instance of the imports, to run the methods on examples

    Values are empty, a bit array or a string; a candidate fits a bit array
    when it has as many bits, and a string when it is text.  The matcher
    understands [*], [?] and [[...]] (with [!] for the complement and [a-z]
    for ranges), compares characters exactly, and reads a [[] without a
    closing bracket as itself. *)

Module Demo.

Inductive value := VEmpty | VBit (bits : list bool) | VString (s : string).

Inductive relaxed_value :=
| RValue (v : value)
| RBool (b : bool)
| RBits (bits : list bool)
| RText (s : string).

Definition convert (to : option value) (s : relaxed_value) : option value :=
  match to with
  | Some (VBit bits) =>
      match s with
      | RValue (VBit bits') | RBits bits' =>
          if Nat.eqb (length bits) (length bits') then Some (VBit bits') else None
      | RBool b => if Nat.eqb (length bits) 1 then Some (VBit [b]) else None
      | _ => None
      end
  | Some (VString _) =>
      match s with
      | RValue (VString s') | RText s' => Some (VString s')
      | _ => None
      end
  | _ => None
  end.

Definition serialize (obj : option value) : list byte :=
  match obj with
  | None => []
  | Some VEmpty => [x00]
  | Some (VBit bits) => x01 :: map (fun b : bool => if b then x01 else x00) bits
  | Some (VString s) => x02 :: list_byte_of_string s
  end.

Definition deserialize (blob : list byte) : option value :=
  match blob with
  | [x00] => Some VEmpty
  | x01 :: payload =>
      if forallb (fun b => Byte.eqb b x00 || Byte.eqb b x01) payload
      then Some (VBit (map (fun b => Byte.eqb b x01) payload))
      else None
  | x02 :: payload => Some (VString (string_of_list_byte payload))
  | _ => None
  end.

Inductive token :=
| Star
| Any
| Lit (c : ascii)
| Class (complement : bool) (ranges : list (ascii * ascii)).

(** The text up to the first closing bracket, and what follows it. *)
Fixpoint upto_close (p : list ascii) : option (list ascii * list ascii) :=
  match p with
  | [] => None
  | c :: q =>
      if Ascii.eqb c "]" then Some ([], q)
      else match upto_close q with
           | Some (body, rest) => Some (c :: body, rest)
           | None => None
           end
  end.

Fixpoint ranges (body : list ascii) : list (ascii * ascii) :=
  match body with
  | [] => []
  | lo :: rest =>
      match rest with
      | dash :: hi :: rest' =>
          if Ascii.eqb dash "-" then (lo, hi) :: ranges rest'
          else (lo, lo) :: ranges rest
      | _ => (lo, lo) :: ranges rest
      end
  end.

(** What follows an opening bracket: the complement mark, the body (a
    closing bracket in first place belongs to it) and the rest. *)
Definition class_of (p : list ascii) : option (bool * list ascii * list ascii) :=
  let '(complement, q) :=
    match p with
    | c :: q' => if Ascii.eqb c "!" then (true, q') else (false, p)
    | [] => (false, p)
    end in
  match q with
  | c :: q' =>
      if Ascii.eqb c "]"
      then '(body, rest) ← upto_close q'; Some (complement, c :: body, rest)
      else '(body, rest) ← upto_close q; Some (complement, body, rest)
  | [] => None
  end.

Fixpoint tokens (fuel : nat) (p : list ascii) : list token :=
  match fuel, p with
  | S fuel', c :: q =>
      if Ascii.eqb c "*" then Star :: tokens fuel' q
      else if Ascii.eqb c "?" then Any :: tokens fuel' q
      else if Ascii.eqb c "[" then
        match class_of q with
        | Some (complement, body, rest) =>
            Class complement (ranges body) :: tokens fuel' rest
        | None => Lit c :: tokens fuel' q
        end
      else Lit c :: tokens fuel' q
  | _, _ => []
  end.

Definition in_class (rs : list (ascii * ascii)) (c : ascii) : bool :=
  existsb (fun r => (N_of_ascii (fst r) <=? N_of_ascii c)%N
                    && (N_of_ascii c <=? N_of_ascii (snd r))%N) rs.

Fixpoint matches (ts : list token) (s : list ascii) {struct ts} : bool :=
  match ts with
  | [] => match s with [] => true | _ => false end
  | Star :: ts' =>
      (fix skip (s : list ascii) : bool :=
         matches ts' s || match s with [] => false | _ :: s' => skip s' end) s
  | Any :: ts' => match s with _ :: s' => matches ts' s' | [] => false end
  | Lit c :: ts' =>
      match s with c' :: s' => Ascii.eqb c c' && matches ts' s' | [] => false end
  | Class complement rs :: ts' =>
      match s with
      | c' :: s' => xorb complement (in_class rs c') && matches ts' s'
      | [] => false
      end
  end.

Definition fnmatchcase (name pat : string) : bool :=
  let p := list_ascii_of_string pat in
  matches (tokens (length p) p) (list_ascii_of_string name).

Definition imports : Imports :=
  Build_Imports value VEmpty relaxed_value RValue
    convert serialize deserialize fnmatchcase.

(** Storage rows made by [SQLiteStorage.set] from a list of registers. *)
Definition rows (regs : list (string * (value * bool))) : gmap string Row :=
  list_to_map
    ((fun r => (r.1, mkRow (Z.b2z r.2.2) (Demo.serialize (Some r.2.1)))) <$> regs).

End Demo.

(** * Properties *)

(** ** The built-ins and the instance on examples *)

Example strip_example : Py.strip "  a b  " = "a b".
Proof. reflexivity. Qed.

Example lower_example : Py.lower ":MeMoRy:/Z" = ":memory:/z".
Proof. reflexivity. Qed.

Example getitem_example :
  Py.getitem ["a"; "b"; "c"] (-1) = Some "c"
  /\ Py.getitem ["a"; "b"; "c"] (-4) = None
  /\ Py.getitem ["a"; "b"; "c"] 3 = None.
Proof. repeat split. Qed.

Example fnmatchcase_example :
  Demo.fnmatchcase "foo.bar" "foo.*" = true
  /\ Demo.fnmatchcase "Foo.bar" "foo.*" = false
  /\ Demo.fnmatchcase "a1" "a[0-9]" = true
  /\ Demo.fnmatchcase "ab" "a[!0-9]?" = false
  /\ Demo.fnmatchcase "a[" "a[" = true.
Proof. repeat split. Qed.

(** The codec of the instance reads back what it wrote. *)
Lemma Demo_codec_round_trip v :
  Demo.deserialize (Demo.serialize (Some v)) = Some v.
Proof.
  destruct v as [|bits|s]; simpl; [done| |].
  - assert (forallb (fun b => Byte.eqb b x00 || Byte.eqb b x01)
              (map (fun b : bool => if b then x01 else x00) bits) = true) as ->.
    { induction bits as [|[] bits IH]; simpl; auto. }
    do 2 f_equal. induction bits as [|[] bits IH]; simpl; by f_equal.
  - by rewrite string_of_list_byte_of_string.
Qed.

(** The doctests of [Repository.__init__]: the default location is volatile,
    a file is persistent. *)
Example persistent_doctest :
  fst (SQLiteStorage.__init__ "" (healthy ∅)) = Return ":memory:"
  /\ Repository.persistent ":memory:" = false
  /\ fst (SQLiteStorage.__init__ "/tmp/registers.db" (healthy ∅))
     = Return "/tmp/registers.db"
  /\ Repository.persistent "/tmp/registers.db" = true.
Proof. repeat split. Qed.

(** Reduction of pairs, bindings and matches on constructors, leaving the
    methods and the codec folded. *)
Ltac step := cbn [fst snd fmap option_fmap option_map].
Ltac step_in H := cbn [fst snd fmap option_fmap option_map] in H.

(** ** A connection whose engine does not fail *)

Section reliable.
Context `{Imports}.

Lemma get_reliable t j name :
  SQLiteStorage.get name (mkConn t j []) = (Return (decode <$> t !! name), mkConn t j []).
Proof.
  unfold SQLiteStorage.get, SQLiteStorage._execute, Sqlite3.select_row,
    Sqlite3.query, try_except, bind, Sqlite3.call, ret; simpl.
  destruct (t !! name) as [[m b]|]; reflexivity.
Qed.

Lemma set_reliable t j name e :
  SQLiteStorage.set name e (mkConn t j [])
  = (Return tt, mkConn (<[name := encode e]> t) (j ++ [Upsert name (encode e)]) []).
Proof. reflexivity. Qed.

Lemma get_names_reliable t j :
  SQLiteStorage.get_names (mkConn t j [])
  = (Return (merge_sort Py.le (fst <$> map_to_list t)), mkConn t j []).
Proof. reflexivity. Qed.

Lemma count_reliable t j :
  SQLiteStorage.count (mkConn t j []) = (Return (Z.of_nat (size t)), mkConn t j []).
Proof. reflexivity. Qed.

Lemma executemany_reliable names : forall t j,
  Sqlite3.executemany Sqlite3.delete_row names (mkConn t j [])
  = (Return tt, mkConn (without names t) (j ++ (Remove <$> names)) []).
Proof.
  induction names as [|n names IH]; intros t j; simpl.
  - unfold ret. by rewrite app_nil_r.
  - unfold bind at 1. unfold Sqlite3.delete_row at 1; simpl.
    rewrite IH. by rewrite <- app_assoc.
Qed.

Lemma delete_reliable names t j :
  SQLiteStorage.delete names (mkConn t j [])
  = (Return tt, mkConn (without names t) (j ++ (Remove <$> names)) []).
Proof.
  unfold SQLiteStorage.delete, try_except, bind.
  rewrite executemany_reliable. reflexivity.
Qed.

Lemma flag_decode_encode (e : Entry) : mutable (decode (encode e)) = mutable e.
Proof. unfold decode, encode; simpl. by destruct (mutable e). Qed.

Lemma Repository_set_reliable t j name v :
  Repository.set name v (mkConn t j [])
  = match t !! name with
    | None => (Raise (MissingRegisterError name), mkConn t j [])
    | Some r =>
        match convert (value (decode r)) v with
        | None => (Raise ConflictError, mkConn t j [])
        | Some converted =>
            let e' := mkEntry (Some converted) (mutable (decode r)) in
            (Return tt,
             mkConn (<[name := encode e']> t) (j ++ [Upsert name (encode e')]) [])
        end
    end.
Proof.
  unfold Repository.set, bind. rewrite get_reliable.
  destruct (t !! name) as [r|]; simpl; [|reflexivity].
  destruct (convert _ v); reflexivity.
Qed.

Lemma Repository_create_reliable t j name v m :
  Repository.create name v m (mkConn t j [])
  = match t !! name with
    | None =>
        let e' := mkEntry (Some v) m in
        (Return tt,
         mkConn (<[name := encode e']> t) (j ++ [Upsert name (encode e')]) [])
    | Some _ => Repository.set name (relaxed v) (mkConn t j [])
    end.
Proof.
  unfold Repository.create, try_except. rewrite Repository_set_reliable.
  destruct (t !! name) as [r|]; simpl; [|reflexivity].
  destruct (convert _ _); reflexivity.
Qed.

Lemma Repository_access_reliable t j name v :
  Repository.access name v (mkConn t j [])
  = match t !! name with
    | None => (Return (mkEntry (Some Value_empty) false), mkConn t j [])
    | Some r =>
        match mutable (decode r), convert (value (decode r)) (relaxed v) with
        | true, Some converted =>
            let e' := mkEntry (Some converted) (mutable (decode r)) in
            (Return e',
             mkConn (<[name := encode e']> t) (j ++ [Upsert name (encode e')]) [])
        | _, _ => (Return (decode r), mkConn t j [])
        end
    end.
Proof.
  unfold Repository.access, bind at 1. rewrite get_reliable.
  destruct (t !! name) as [r|]; simpl; [|reflexivity].
  destruct (negb (row_mutable r =? 0)); [|reflexivity].
  destruct (convert _ _); reflexivity.
Qed.

Lemma Repository_delete_reliable t j wildcard :
  Repository.delete wildcard (mkConn t j [])
  = let names := List.filter (fun n => fnmatchcase n wildcard)
                   (merge_sort Py.le (fst <$> map_to_list t)) in
    (Return tt, mkConn (without names t) (j ++ (Remove <$> names)) []).
Proof.
  unfold Repository.delete, Repository.keys, bind.
  rewrite get_names_reliable. apply delete_reliable.
Qed.

Lemma lookup_without names : forall (t : gmap string Row) n,
  without names t !! n = if decide (n ∈ names) then None else t !! n.
Proof.
  induction names as [|x names IH]; intros t n.
  - rewrite decide_False; [done|]. apply not_elem_of_nil.
  - unfold without in *. simpl. rewrite IH.
    destruct (decide (n ∈ names)) as [Hin|Hin].
    + rewrite decide_True; [done|by right].
    + destruct (decide (n = x)) as [->|Hne].
      * rewrite decide_True; [|by left]. apply lookup_delete_eq.
      * rewrite decide_False; [by apply lookup_delete_ne|].
        intros [?|?]%elem_of_cons; done.
Qed.

End reliable.

(** ** The access transaction *)

Section access.
Context `{Imports}.

(** C1. On a register that exists, with stored Entry [e], [access] writes
    exactly when [e.mutable] is true and [convert(e.value, candidate)]
    succeeds: it then upserts the converted Entry, with the flag of [e], and
    returns it.  In every other case it returns [e] and leaves the
    connection as it was: the table is the same and the journal of writes
    has not grown. *)
Theorem access_existing t j name v e :
  fst (Repository.get name (mkConn t j [])) = Return (Some e) ->
  let c := mkConn t j [] in
  (forall converted,
      mutable e = true -> convert (value e) (relaxed v) = Some converted ->
      let e' := mkEntry (Some converted) (mutable e) in
      Repository.access name v c
      = (Return e', mkConn (<[name := encode e']> t) (j ++ [Upsert name (encode e')]) []))
  /\ (mutable e = false \/ convert (value e) (relaxed v) = None ->
      Repository.access name v c = (Return e, c))
  /\ ((exists w, journal (snd (Repository.access name v c)) = j ++ [w])
      <-> mutable e = true /\ is_Some (convert (value e) (relaxed v))).
Proof.
  intros Hget c. unfold Repository.get in Hget.
  rewrite get_reliable in Hget. simpl in Hget.
  assert (Hacc : Repository.access name v c
                 = match mutable e, convert (value e) (relaxed v) with
                   | true, Some converted =>
                       let e' := mkEntry (Some converted) (mutable e) in
                       (Return e', mkConn (<[name := encode e']> t)
                                     (j ++ [Upsert name (encode e')]) [])
                   | _, _ => (Return e, c)
                   end).
  { unfold Repository.access, bind at 1. subst c. rewrite get_reliable.
    destruct (t !! name) as [r|]; simpl in Hget; [|discriminate].
    injection Hget as <-. simpl.
    destruct (negb (row_mutable r =? 0)); [|reflexivity].
    destruct (convert _ _); reflexivity. }
  split; [|split].
  - intros converted Hm Hc e'. rewrite Hacc, Hm, Hc. subst e'. by rewrite Hm.
  - intros [Hm|Hc]; rewrite Hacc.
    + by rewrite Hm.
    + rewrite Hc. by destruct (mutable e).
  - rewrite Hacc. split.
    + intros [w Hw]. destruct (mutable e); [destruct (convert _ _) eqn:Hc|]; simpl in Hw.
      * split; [done|]. by eexists.
      * apply (f_equal length) in Hw. rewrite length_app in Hw. simpl in Hw. lia.
      * apply (f_equal length) in Hw. rewrite length_app in Hw. simpl in Hw. lia.
    + intros [Hm [converted Hc]]. rewrite Hm, Hc. simpl. by eexists.
Qed.

(** C3. On a name that is not stored, [access] returns an Entry whose value
    is [Value()], the empty variant, and whose flag is false; the connection
    is as before, and so is the number of registers. *)
Theorem access_missing t j name v :
  fst (Repository.get name (mkConn t j [])) = Return None ->
  let c := mkConn t j [] in
  Repository.access name v c = (Return (mkEntry (Some Value_empty) false), c)
  /\ fst (Repository.__len__ (snd (Repository.access name v c)))
     = fst (Repository.__len__ c).
Proof.
  intros Hget c. unfold Repository.get in Hget.
  rewrite get_reliable in Hget. simpl in Hget.
  assert (Hacc : Repository.access name v c
                 = (Return (mkEntry (Some Value_empty) false), c)).
  { unfold Repository.access, bind. subst c. rewrite get_reliable.
    destruct (t !! name); simpl in Hget; [discriminate|reflexivity]. }
  split; [exact Hacc|]. by rewrite Hacc.
Qed.

End access.

(** The register [foo] of the doctests: one bit, set, mutable. *)
Lemma access_existing_witness :
  let _ := Demo.imports in
  let t := Demo.rows [("foo", (Demo.VBit [true], true))] in
  fst (Repository.get "foo" (healthy t)) = Return (Some (mkEntry (Some (Demo.VBit [true])) true))
  /\ fst (Repository.access "foo" (Demo.VBit [false]) (healthy t))
     = Return (mkEntry (Some (Demo.VBit [false])) true)
  /\ Repository.access "foo" (Demo.VBit [true; false]) (healthy t)
     = (Return (mkEntry (Some (Demo.VBit [true])) true), healthy t).
Proof.
  intros I t.
  pose proof (@access_existing I t [] "foo" (Demo.VBit [false]) _ eq_refl) as (Hw & _ & _).
  pose proof (@access_existing I t [] "foo" (Demo.VBit [true; false]) _ eq_refl) as (_ & Hr & _).
  split; [reflexivity|split]; unfold healthy.
  - rewrite (Hw (Demo.VBit [false]) eq_refl eq_refl). reflexivity.
  - apply Hr. right. reflexivity.
Defined.

Lemma access_missing_witness :
  let _ := Demo.imports in
  fst (Repository.get "foo" (healthy ∅)) = Return None
  /\ Repository.access "foo" (Demo.VBit [false]) (healthy ∅)
     = (Return (mkEntry (Some Demo.VEmpty) false), healthy ∅).
Proof.
  intros I. split; [reflexivity|].
  apply (@access_missing I ∅ [] "foo" (Demo.VBit [false])). reflexivity.
Defined.

(** ** Direct writes: [set] and [create] *)

Section writes.
Context `{Imports}.

(** C2. [set] raises [MissingRegisterError] exactly when the name is not
    stored, and [ConflictError] exactly when it is stored and
    [convert(existing.value, candidate)] fails; it raises nothing else, and
    whenever it raises the connection is as before. *)
Theorem set_failures t j name v :
  let c := mkConn t j [] in
  ((exists n, fst (Repository.set name v c) = Raise (MissingRegisterError n))
   <-> fst (Repository.get name c) = Return None)
  /\ (fst (Repository.set name v c) = Raise ConflictError
      <-> exists e, fst (Repository.get name c) = Return (Some e)
                    /\ convert (value e) v = None)
  /\ (forall ex, fst (Repository.set name v c) = Raise ex ->
        (ex = MissingRegisterError name \/ ex = ConflictError)
        /\ snd (Repository.set name v c) = c).
Proof.
  intros c. subst c. unfold Repository.get.
  rewrite Repository_set_reliable, get_reliable.
  destruct (t !! name) as [r|]; simpl.
  - destruct (convert _ v) as [converted|] eqn:Hc; simpl.
    + repeat split; try done.
      * by intros [? ?].
      * intros (e & [= <-] & He). simpl in He. congruence.
    + repeat split; try done.
      * by intros [? ?].
      * intros _. by exists (decode r).
      * right. congruence.
  - repeat split; try done.
    + intros _. by eexists.
    + by intros (e & ? & _).
    + left. congruence.
Qed.

(** C6. Creating a register under a name that is not stored and reading it
    back gives the value and the flag that were passed, for a value that the
    codec reads back as it was written. *)
Theorem create_then_get t j name v m :
  fst (Repository.get name (mkConn t j [])) = Return None ->
  deserialize (serialize (Some v)) = Some v ->
  let r := Repository.create name v m (mkConn t j []) in
  fst r = Return tt
  /\ fst (Repository.get name (snd r)) = Return (Some (mkEntry (Some v) m)).
Proof.
  unfold Repository.get. rewrite get_reliable. simpl. intros Hget Hcodec.
  rewrite Repository_create_reliable.
  destruct (t !! name); simpl in Hget; [discriminate|]. simpl.
  split; [done|]. rewrite get_reliable. simpl.
  rewrite lookup_insert_eq. simpl. unfold decode, encode; simpl.
  rewrite Hcodec. by destruct m.
Qed.

(** C4. A register keeps its mutability flag: through any call of [set],
    [create], [access] or [delete], a register that is stored before and
    after has the same flag; a successful [set] and any [access] leave the
    register stored, with its flag; and [create] on a stored name is [set],
    whatever its [mutable] argument. *)
Theorem mutability_preserved t j name e :
  fst (Repository.get name (mkConn t j [])) = Return (Some e) ->
  let c := mkConn t j [] in
  (forall call e',
      fst (Repository.get name (snd (perform call c))) = Return (Some e') ->
      mutable e' = mutable e)
  /\ (forall v, fst (Repository.set name v c) = Return tt ->
        exists e', fst (Repository.get name (snd (Repository.set name v c)))
                   = Return (Some e') /\ mutable e' = mutable e)
  /\ (forall v, exists e', fst (Repository.get name (snd (Repository.access name v c)))
                           = Return (Some e') /\ mutable e' = mutable e)
  /\ (forall v m, Repository.create name v m c = Repository.set name (relaxed v) c).
Proof.
  intros Hget c. unfold Repository.get in *. rewrite get_reliable in Hget.
  destruct (t !! name) as [r|] eqn:Hr; step_in Hget; [|discriminate].
  injection Hget as <-.
  assert (Hkeep : forall j' e',
    fst (SQLiteStorage.get name (mkConn t j' [])) = Return (Some e') ->
    mutable e' = mutable (decode r)).
  { intros j' e'. rewrite get_reliable, Hr. step. by intros [= <-]. }
  assert (Hput : forall n j' x m e',
    (n = name -> m = mutable (decode r)) ->
    fst (SQLiteStorage.get name (mkConn (<[n := encode (mkEntry x m)]> t) j' []))
    = Return (Some e') ->
    mutable e' = mutable (decode r)).
  { intros n j' x m e' Hm. rewrite get_reliable.
    destruct (decide (n = name)) as [->|Hne].
    - rewrite lookup_insert_eq. step. intros [= <-].
      rewrite flag_decode_encode. by apply Hm.
    - rewrite lookup_insert_ne, Hr by done. step. by intros [= <-]. }
  assert (Hset : forall n v e',
    fst (SQLiteStorage.get name (snd (Repository.set n v c))) = Return (Some e') ->
    mutable e' = mutable (decode r)).
  { intros n v e'. subst c. rewrite Repository_set_reliable.
    destruct (t !! n) as [r0|] eqn:Hr0; [destruct (convert _ v)|]; step;
      [|apply Hkeep..].
    apply Hput. intros ->. congruence. }
  assert (Hacc : forall n v e',
    fst (SQLiteStorage.get name (snd (Repository.access n v c))) = Return (Some e') ->
    mutable e' = mutable (decode r)).
  { intros n v e'. subst c. rewrite Repository_access_reliable.
    destruct (t !! n) as [r0|] eqn:Hr0;
      [destruct (mutable (decode r0)) eqn:Hm0; [destruct (convert _ _)|]|]; step;
      [|apply Hkeep..].
    apply Hput. intros ->. congruence. }
  split; [|split; [|split]].
  - intros [n v|n v m|n v|w] e'; unfold perform.
    + apply Hset.
    + subst c. rewrite Repository_create_reliable.
      destruct (t !! n) as [r0|] eqn:Hr0; [apply Hset|]. step.
      apply Hput. congruence.
    + unfold bind. specialize (Hacc n v e').
      destruct (Repository.access n v c) as [[a|ex] c']; apply Hacc.
    + subst c. rewrite Repository_delete_reliable. step.
      rewrite get_reliable, lookup_without.
      case_decide; [done|]. rewrite Hr. step. by intros [= <-].
  - intros v Hok. subst c. revert Hok. rewrite Repository_set_reliable, Hr.
    destruct (convert _ v); step; [|done]. intros _.
    rewrite get_reliable, lookup_insert_eq. step.
    eexists. split; [done|]. by rewrite flag_decode_encode.
  - intros v. subst c. rewrite Repository_access_reliable, Hr.
    destruct (mutable (decode r)) eqn:Hm; [destruct (convert _ _)|]; step;
      rewrite get_reliable.
    + rewrite lookup_insert_eq. step. eexists. split; [done|].
      by rewrite flag_decode_encode.
    + rewrite Hr. step. by eexists.
    + rewrite Hr. step. by eexists.
  - intros v m. subst c. by rewrite Repository_create_reliable, Hr.
Qed.

End writes.

Lemma create_then_get_witness :
  let _ := Demo.imports in
  let r := Repository.create "foo" (Demo.VBit [true; false]) false (healthy ∅) in
  fst (Repository.get "foo" (healthy ∅)) = Return None
  /\ deserialize (serialize (Some (Demo.VBit [true; false]))) = Some (Demo.VBit [true; false])
  /\ fst r = Return tt
  /\ fst (Repository.get "foo" (snd r))
     = Return (Some (mkEntry (Some (Demo.VBit [true; false])) false)).
Proof.
  intros I r. split; [reflexivity|]. split; [reflexivity|].
  apply (@create_then_get I ∅ [] "foo" (Demo.VBit [true; false]) false); reflexivity.
Defined.

(** An immutable register stays immutable when [create] is called on it with
    [mutable=True]. *)
Lemma mutability_preserved_witness :
  let _ := Demo.imports in
  let c := healthy (Demo.rows [("foo", (Demo.VBit [true], false))]) in
  let c' := snd (Repository.create "foo" (Demo.VBit [false]) true c) in
  fst (Repository.get "foo" c) = Return (Some (mkEntry (Some (Demo.VBit [true])) false))
  /\ fst (Repository.get "foo" c') = Return (Some (mkEntry (Some (Demo.VBit [false])) false))
  /\ mutable (mkEntry (Some (Demo.VBit [false])) false)
     = mutable (mkEntry (Some (Demo.VBit [true])) false).
Proof.
  intros I c c'. split; [reflexivity|]. split; [reflexivity|].
  pose proof (@mutability_preserved I (Demo.rows [("foo", (Demo.VBit [true], false))]) []
                "foo" (mkEntry (Some (Demo.VBit [true])) false)) as Hthm.
  destruct Hthm as (Hcalls & _); [reflexivity|].
  apply (Hcalls (@CallCreate Demo.imports "foo" (Demo.VBit [false]) true)
                (@mkEntry Demo.imports (Some (Demo.VBit [false])) false)).
  reflexivity.
Defined.

(** The doctest of [set]: a missing register, then a value of the wrong
    dimensionality. *)
Example set_doctest :
  let _ := Demo.imports in
  let c := healthy (Demo.rows [("foo", (Demo.VBit [true], true))]) in
  fst (Repository.set "foo" (Demo.RBool true) (healthy ∅)) = Raise (MissingRegisterError "foo")
  /\ fst (Repository.get "foo" (snd (Repository.set "foo" (Demo.RBool false) c)))
     = Return (Some (mkEntry (Some (Demo.VBit [false])) true))
  /\ Repository.set "foo" (Demo.RBits [true; false]) c = (Raise ConflictError, c).
Proof. repeat split. Qed.

(** ** Exceptions of [access] *)

Section access_exceptions.
Context `{Imports}.

(** C5. The claim, and the docstring of [access] (no exceptions are raised),
    do not hold of the code when the engine fails.  For every name, candidate
    and table: an [OperationalError] from the select leaves [access] as a
    [StorageError]; an [OperationalError] while fetching the row, which is
    outside the [try] of [_execute], leaves it as it is; another error of
    [sqlite3] leaves it as it is; and for a stored mutable register whose
    candidate converts, an [OperationalError] from the insert or from the
    commit leaves [access] as a [StorageError] instead of the Entry. *)
Theorem access_raises_on_engine_failure t j name v fs :
  Repository.access name v (mkConn t j (Operational :: fs))
  = (Raise StorageError, mkConn t j fs)
  /\ Repository.access name v (mkConn t j (Done :: Operational :: fs))
     = (Raise OperationalError, mkConn t j fs)
  /\ Repository.access name v (mkConn t j (Other :: fs))
     = (Raise DatabaseError, mkConn t j fs)
  /\ (forall e converted,
        fst (Repository.get name (mkConn t j [])) = Return (Some e) ->
        mutable e = true ->
        convert (value e) (relaxed v) = Some converted ->
        fst (Repository.access name v (mkConn t j (Done :: Done :: Operational :: fs)))
        = Raise StorageError
        /\ fst (Repository.access name v
                  (mkConn t j (Done :: Done :: Done :: Operational :: fs)))
           = Raise StorageError).
Proof.
  split; [reflexivity|]. split; [reflexivity|]. split; [reflexivity|].
  intros e converted Hget Hm Hc. unfold Repository.get in Hget.
  rewrite get_reliable in Hget.
  destruct (t !! name) as [r|] eqn:Hr; step_in Hget; [|discriminate].
  injection Hget as <-.
  assert (Hread : forall fs',
    SQLiteStorage.get name (mkConn t j (Done :: Done :: fs'))
    = (Return (Some (decode r)), mkConn t j fs')).
  { intros fs'. unfold SQLiteStorage.get, SQLiteStorage._execute,
      Sqlite3.select_row, Sqlite3.query, Sqlite3.fetch, Sqlite3.call,
      try_except, bind, ret; simpl. rewrite Hr. by destruct r. }
  split; unfold Repository.access, bind at 1; rewrite Hread, Hm, Hc; reflexivity.
Qed.

End access_exceptions.

Lemma access_raises_on_engine_failure_witness :
  let _ := Demo.imports in
  let t := Demo.rows [("foo", (Demo.VBit [true], true))] in
  fst (Repository.get "foo" (healthy t)) = Return (Some (mkEntry (Some (Demo.VBit [true])) true))
  /\ fst (Repository.access "foo" (Demo.VBit [false])
            (mkConn t [] [Done; Done; Operational]))
     = Raise StorageError
  /\ fst (Repository.access "foo" Demo.VEmpty (mkConn ∅ [] [Operational]))
     = Raise StorageError.
Proof.
  intros I t. split; [reflexivity|].
  destruct (@access_raises_on_engine_failure I t [] "foo" (Demo.VBit [false]) [])
    as (_ & _ & _ & Hwrite).
  destruct (Hwrite (@mkEntry Demo.imports (Some (Demo.VBit [true])) true)
                   (Demo.VBit [false])) as [Hinsert _]; try reflexivity.
  split; [exact Hinsert|].
  destruct (@access_raises_on_engine_failure I ∅ [] "foo" Demo.VEmpty [])
    as (Hselect & _).
  unfold fst. by rewrite Hselect.
Defined.

(** ** The order of names *)

Section order.

Global Instance le_total : Total Py.le.
Proof. intros a b. apply String.leb_total. Qed.

Global Instance le_antisymm : AntiSymm (=) Py.le.
Proof. intros a b. apply String.leb_antisym. Qed.

Global Instance le_transitive : Transitive Py.le.
Proof.
  unfold Py.le, String.leb. intros a.
  induction a as [|x a IH]; intros [|y b] [|z c]; simpl; try done.
  unfold Ascii.compare.
  destruct (N.compare_spec (N_of_ascii x) (N_of_ascii y)) as [Hxy|Hxy|Hxy];
    destruct (N.compare_spec (N_of_ascii y) (N_of_ascii z)) as [Hyz|Hyz|Hyz];
    destruct (N.compare_spec (N_of_ascii x) (N_of_ascii z)) as [Hxz|Hxz|Hxz];
    try done; try lia.
  apply IH.
Qed.

Lemma elem_of_names_of t n : n ∈ names_of t <-> is_Some (t !! n).
Proof.
  unfold names_of. rewrite merge_sort_Permutation, list_elem_of_fmap. split.
  - intros ([n' r] & -> & Hin). apply elem_of_map_to_list in Hin. by eexists.
  - intros [r Hr]. exists (n, r). split; [done|]. by apply elem_of_map_to_list.
Qed.

Lemma NoDup_names_of t : NoDup (names_of t).
Proof.
  unfold names_of. rewrite merge_sort_Permutation. apply NoDup_fst_map_to_list.
Qed.

Lemma Sorted_names_of t : Sorted Py.le (names_of t).
Proof. apply (Sorted_merge_sort Py.le). Qed.

Lemma length_names_of t : length (names_of t) = size t.
Proof.
  unfold names_of.
  by rewrite merge_sort_Permutation, length_fmap, length_map_to_list.
Qed.

Lemma names_of_dom t1 t2 : dom t1 = dom t2 -> names_of t1 = names_of t2.
Proof.
  intros Hdom. apply (Sorted_unique Py.le); try apply Sorted_names_of.
  apply NoDup_Permutation; try apply NoDup_names_of.
  intros n. by rewrite !elem_of_names_of, <- !elem_of_dom, Hdom.
Qed.

End order.

(** ** Enumeration and wildcard deletion *)

Section enumeration.
Context `{Imports}.

Lemma keys_reliable t j :
  Repository.keys (mkConn t j []) = (Return (names_of t), mkConn t j []).
Proof. reflexivity. Qed.

Lemma perform_reliable call t j :
  exists t' j', snd (perform call (mkConn t j [])) = mkConn t' j' [].
Proof.
  destruct call as [n v|n v m|n v|w]; unfold perform.
  - rewrite Repository_set_reliable.
    destruct (t !! n); [destruct (convert _ v)|]; by do 2 eexists.
  - rewrite Repository_create_reliable.
    destruct (t !! n); [|by do 2 eexists].
    rewrite Repository_set_reliable.
    destruct (t !! n); [destruct (convert _ _)|]; by do 2 eexists.
  - unfold bind. rewrite Repository_access_reliable.
    destruct (t !! n) as [r|]; [|by do 2 eexists].
    destruct (mutable (decode r)); [destruct (convert _ _)|]; by do 2 eexists.
  - rewrite Repository_delete_reliable. by do 2 eexists.
Qed.

Lemma script_reliable calls : forall t j,
  exists t' j', snd (script calls (mkConn t j [])) = mkConn t' j' [].
Proof.
  induction calls as [|call calls IH]; intros t j; simpl.
  - by do 2 eexists.
  - destruct (perform_reliable call t j) as (t1 & j1 & H1).
    unfold bind, try_except.
    destruct (perform call (mkConn t j [])) as [[[]|ex] c1];
      simpl in H1; subst c1; apply IH.
Qed.

(** C9. After any sequence of calls of [set], [create], [access] and
    [delete], [keys()] and iteration give the names that are stored at that
    moment, each once, in the order of the strings; the list is determined
    by the set of stored names alone, so the order of insertion does not
    show. *)
Theorem keys_sorted calls c :
  faults c = [] ->
  let c' := snd (script calls c) in
  exists names,
    Repository.keys c' = (Return names, c')
    /\ Repository.__iter__ c' = (Return names, c')
    /\ Sorted Py.le names
    /\ NoDup names
    /\ (forall n, n ∈ names
                  <-> exists e, fst (Repository.get n c') = Return (Some e))
    /\ (forall c2, faults c2 = [] -> dom (table c2) = dom (table c') ->
          fst (Repository.keys c2) = Return names).
Proof.
  destruct c as [t j fs]. simpl. intros ->.
  destruct (script_reliable calls t j) as (t' & j' & ->).
  exists (names_of t'). repeat split.
  - apply Sorted_names_of.
  - apply NoDup_names_of.
  - intros [r Hr]%elem_of_names_of. unfold Repository.get.
    rewrite get_reliable, Hr. by eexists.
  - intros [e He]. apply elem_of_names_of. revert He. unfold Repository.get.
    rewrite get_reliable. destruct (t' !! n); [by eexists|done].
  - intros [t2 j2 fs2]. simpl. intros -> Hdom. rewrite keys_reliable. simpl.
    f_equal. by apply names_of_dom.
Qed.

Lemma filter_nil_iff {A} (f : A -> bool) (l : list A) :
  (forall x, x ∈ l -> f x = false) -> List.filter f l = [].
Proof.
  induction l as [|x l IH]; intros Hf; simpl; [done|].
  rewrite (Hf x) by left. apply IH. intros y Hy. apply Hf. by right.
Qed.

(** C7. [delete(wildcard)] removes the stored names that [fnmatchcase]
    matches against the pattern, given as they are, and no other: afterwards
    [get] finds nothing under a matching name and what it found before under
    any other.  When no stored name matches, nothing is written and no
    exception is raised. *)
Theorem delete_wildcard t j wildcard :
  let c := mkConn t j [] in
  let r := Repository.delete wildcard c in
  fst r = Return tt
  /\ (forall n, fst (Repository.get n (snd r))
                = if fnmatchcase n wildcard then Return None
                  else fst (Repository.get n c))
  /\ ((forall n, n ∈ names_of t -> fnmatchcase n wildcard = false) -> snd r = c).
Proof.
  intros c r. subst r c. rewrite Repository_delete_reliable.
  fold (names_of t). cbn zeta. step. split; [done|]. split.
  - intros n. unfold Repository.get. rewrite !get_reliable. step.
    rewrite lookup_without.
    destruct (decide (n ∈ List.filter (fun n => fnmatchcase n wildcard) (names_of t)))
      as [Hin|Hin].
    + apply list_elem_of_In, filter_In in Hin as [_ ->]. done.
    + destruct (fnmatchcase n wildcard) eqn:Hm; [|done].
      destruct (t !! n) as [r|] eqn:Hr; [|done].
      exfalso. apply Hin, list_elem_of_In, filter_In. split; [|done].
      apply list_elem_of_In, elem_of_names_of. by eexists.
  - intros Hnone. rewrite filter_nil_iff by done. simpl.
    by rewrite app_nil_r.
Qed.

End enumeration.

Lemma keys_sorted_witness :
  let _ := Demo.imports in
  let calls := [CallCreate "b" Demo.VEmpty true; CallCreate "a" Demo.VEmpty true] in
  let c' := snd (script calls (healthy ∅)) in
  faults (healthy ∅) = []
  /\ fst (Repository.keys c') = Return ["a"; "b"]
  /\ exists names, fst (Repository.keys c') = Return names
                   /\ Sorted Py.le names /\ NoDup names.
Proof.
  intros I calls c'. split; [reflexivity|]. split; [vm_compute; reflexivity|].
  destruct (@keys_sorted I calls (healthy ∅) eq_refl)
    as (names & Hkeys & _ & Hsorted & Hnodup & _).
  exists names. fold c' in Hkeys. rewrite Hkeys. auto.
Defined.

(** The doctest of [delete], and a pattern that matches nothing. *)
Lemma delete_wildcard_witness :
  let _ := Demo.imports in
  let t := Demo.rows [("foo.bar", (Demo.VEmpty, true)); ("foo.baz", (Demo.VEmpty, true));
                      ("zoo.bar", (Demo.VEmpty, true)); ("Foo.bar", (Demo.VEmpty, true))] in
  let c' := snd (Repository.delete "foo.*" (healthy t)) in
  fst (Repository.get "foo.bar" c') = Return None
  /\ fst (Repository.get "zoo.bar" c') = fst (Repository.get "zoo.bar" (healthy t))
  /\ fst (Repository.keys c') = Return ["Foo.bar"; "zoo.bar"]
  /\ (forall n, n ∈ names_of t -> fnmatchcase n "bar.?" = false)
  /\ snd (Repository.delete "bar.?" (healthy t)) = healthy t.
Proof.
  intros I t c'.
  destruct (@delete_wildcard I t [] "foo.*") as (_ & Hget & _).
  destruct (@delete_wildcard I t [] "bar.?") as (_ & _ & Hnone).
  assert (Hno : forall n, n ∈ names_of t -> fnmatchcase n "bar.?" = false).
  { assert (names_of t = ["Foo.bar"; "foo.bar"; "foo.baz"; "zoo.bar"]) as ->
      by (vm_compute; reflexivity).
    intros n Hin. repeat (apply elem_of_cons in Hin as [->|Hin]; [reflexivity|]).
    apply elem_of_nil in Hin. destruct Hin. }
  unfold c', healthy.
  split. { rewrite (Hget "foo.bar"). reflexivity. }
  split. { rewrite (Hget "zoo.bar"). reflexivity. }
  split. { vm_compute. reflexivity. }
  split; [exact Hno|]. exact (Hnone Hno).
Defined.

(** ** Lookup of a name by its index *)

Section index.
Context `{Imports}.

Lemma get_name_at_index_reliable t j index :
  Repository.get_name_at_index index (mkConn t j [])
  = (Return (Py.getitem (names_of t) index), mkConn t j []).
Proof.
  unfold Repository.get_name_at_index, SQLiteStorage.get_name_at_index,
    try_except, bind.
  rewrite get_names_reliable. fold (names_of t).
  destruct (Py.getitem (names_of t) index); reflexivity.
Qed.

(** C10. With [count] registers stored, a non-negative index gives [None]
    exactly when it is [count] or more; the index [-k], for [k] from 1 to
    [count], gives the [k]-th name from the end of the sorted list, not
    [None]; an index below [-count] gives [None]. *)
Theorem get_name_at_index_negative t j :
  let c := mkConn t j [] in
  exists names count,
    fst (Repository.keys c) = Return names
    /\ fst (Repository.__len__ c) = Return count
    /\ count = Z.of_nat (length names)
    /\ (forall i, 0 <= i ->
          (fst (Repository.get_name_at_index i c) = Return None <-> count <= i))
    /\ (forall k, 1 <= k <= count ->
          exists n, reverse names !! Z.to_nat (k - 1) = Some n
                    /\ fst (Repository.get_name_at_index (- k) c) = Return (Some n))
    /\ (forall i, i < - count ->
          fst (Repository.get_name_at_index i c) = Return None).
Proof.
  intros c. exists (names_of t), (Z.of_nat (length (names_of t))). subst c.
  split; [reflexivity|]. split.
  { unfold Repository.__len__. rewrite count_reliable, length_names_of. done. }
  split; [reflexivity|].
  split; [|split]; intros i Hi; rewrite get_name_at_index_reliable;
    unfold Py.getitem; step.
  - rewrite (proj2 (Z.leb_le 0 i)) by done. split.
    + intros [= Hnone]. apply lookup_ge_None in Hnone. lia.
    + intros Hge. f_equal. apply lookup_ge_None. lia.
  - rewrite (proj2 (Z.leb_gt 0 (- i))) by lia.
    rewrite (proj2 (Z.leb_le 0 _)) by lia.
    assert (Hlt : (Z.to_nat (i - 1) < length (names_of t))%nat) by lia.
    rewrite reverse_lookup by done.
    replace (Z.to_nat (Z.of_nat (length (names_of t)) + - i))
      with (length (names_of t) - S (Z.to_nat (i - 1)))%nat by lia.
    destruct (lookup_lt_is_Some_2 (names_of t)
                (length (names_of t) - S (Z.to_nat (i - 1)))%nat) as [n Hn]; [lia|].
    exists n. by rewrite Hn.
  - rewrite (proj2 (Z.leb_gt 0 i)) by lia.
    by rewrite (proj2 (Z.leb_gt 0 _)) by lia.
Qed.

End index.

Lemma get_name_at_index_negative_witness :
  let c := healthy (Demo.rows [("b", (Demo.VEmpty, true)); ("a", (Demo.VEmpty, true));
                               ("c", (Demo.VEmpty, true))]) in
  1 <= 1 <= 3
  /\ fst (Repository.get_name_at_index (-1) c) = Return (Some "c")
  /\ (exists n, reverse ["a"; "b"; "c"] !! Z.to_nat (3 - 1) = Some n
                /\ fst (Repository.get_name_at_index (-3) c) = Return (Some n))
  /\ (fst (Repository.get_name_at_index 3 c) = Return None <-> 3 <= 3).
Proof.
  intros c. split; [lia|]. split; [vm_compute; reflexivity|].
  destruct (get_name_at_index_negative (table c) [])
    as (names & count & Hk & _ & Hc & Hpos & Hneg & _).
  vm_compute in Hk. injection Hk as <-. vm_compute in Hc. subst count.
  split.
  - apply (Hneg 3). lia.
  - apply (Hpos 3). lia.
Defined.

(** ** Volatile and persistent locations *)

Section location.

Lemma append_cons c l s : String c l +:+ s = String c (l +:+ s).
Proof. reflexivity. Qed.

Lemma lstrip_split s :
  exists l, s = l +:+ Py.lstrip s /\ blank l = true.
Proof.
  induction s as [|c s [l [Hs Hl]]]; [by exists ""|]. simpl.
  destruct (Py.isspace c) eqn:Hc.
  - exists (String c l). rewrite append_cons, <- Hs. cbn. by rewrite Hc.
  - by exists "".
Qed.

Lemma rstrip_split s :
  exists r, s = Py.rstrip s +:+ r /\ blank r = true.
Proof.
  induction s as [|c s [r [Hs Hr]]]; [by exists ""|]. simpl.
  destruct (Py.rstrip s) as [|c' s'] eqn:Hrs.
  - destruct (Py.isspace c) eqn:Hc.
    + exists (String c r). change ("" +:+ r) with r in Hs.
      change ("" +:+ String c r) with (String c r). subst s.
      cbn. by rewrite Hc.
    + exists r. change ("" +:+ r) with r in Hs. rewrite append_cons.
      change ("" +:+ r) with r. by subst s.
  - exists r. by rewrite append_cons, <- Hs.
Qed.

Lemma lstrip_blank_app l c s :
  blank l = true -> Py.isspace c = false ->
  Py.lstrip (l +:+ String c s) = String c s.
Proof.
  intros Hl Hc. induction l as [|x l IH].
  - change ("" +:+ String c s) with (String c s). cbn. by rewrite Hc.
  - rewrite append_cons. cbn in *.
    apply andb_true_iff in Hl as [-> Hl]. by apply IH.
Qed.

Lemma rstrip_blank r : blank r = true -> Py.rstrip r = "".
Proof.
  induction r as [|c r IH]; [done|]. simpl.
  intros [Hc Hr]%andb_true_iff. by rewrite IH, Hc.
Qed.

Lemma rstrip_solid_app s r :
  ends_solid s = true -> blank r = true -> Py.rstrip (s +:+ r) = s.
Proof.
  intros Hs Hr. induction s as [|c s IH]; [done|].
  destruct s as [|c' s].
  - rewrite append_cons. change ("" +:+ r) with r. cbn in *.
    rewrite rstrip_blank by done. by destruct (Py.isspace c).
  - specialize (IH Hs). rewrite append_cons.
    change (Py.rstrip (String c (String c' s +:+ r)))
      with (match Py.rstrip (String c' s +:+ r) with
            | EmptyString => if Py.isspace c then EmptyString else String c EmptyString
            | x => String c x
            end).
    by rewrite IH.
Qed.

Lemma lower_char_colon c : Py.lower_char c = ":"%char -> c = ":"%char.
Proof.
  destruct c as [[] [] [] [] [] [] [] []]; vm_compute; congruence.
Qed.

Lemma lower_token tok :
  Py.lower tok = ":memory:" ->
  exists s, tok = String ":" s /\ ends_solid tok = true.
Proof.
  destruct tok as [|c1 [|c2 [|c3 [|c4 [|c5 [|c6 [|c7 [|c8 [|c9 s]]]]]]]]];
    simpl; try discriminate.
  intros [= H1 _ _ _ _ _ _ H8].
  apply lower_char_colon in H1 as ->. apply lower_char_colon in H8 as ->.
  by eexists.
Qed.

Lemma init_reliable location t j :
  SQLiteStorage.__init__ location (mkConn t j [])
  = (Return (Py.strip (Py.or_ location SQLiteStorage._LOCATION_VOLATILE)),
     mkConn t j []).
Proof. reflexivity. Qed.

(** C8, amended. By the code's design the storage is volatile
    ([persistent] is false) for the empty location, which stands for the
    reserved token, and for the reserved token [:memory:] with any white
    space before and after it.  It is persistent ([persistent] is true) for
    every other location that is not the token in another mix of upper and
    lower case (with or without white space around it); about those
    locations nothing is stated. *)
Theorem persistent_by_design location t j :
  exists _loc,
    fst (SQLiteStorage.__init__ location (mkConn t j [])) = Return _loc
    /\ (location = ""
        \/ (exists l r, location = l +:+ ":memory:" +:+ r
                        /\ blank l = true /\ blank r = true) ->
        SQLiteStorage.persistent _loc = false)
    /\ (location <> "" ->
        (forall l tok r, location = l +:+ tok +:+ r ->
                         blank l = true -> blank r = true ->
                         Py.lower tok <> ":memory:") ->
        SQLiteStorage.persistent _loc = true).
Proof.
  rewrite init_reliable. eexists. split; [reflexivity|].
  unfold SQLiteStorage.persistent, SQLiteStorage._LOCATION_VOLATILE. split.
  - rewrite negb_false_iff, String.eqb_eq.
    intros [->|(l & r & -> & Hbl & Hbr)]; [reflexivity|].
    assert (Py.or_ (l +:+ ":memory:" +:+ r) ":memory:" = l +:+ ":memory:" +:+ r)
      as -> by (by destruct l).
    unfold Py.strip.
    change (":memory:" +:+ r) with (String ":" ("memory:" +:+ r)).
    rewrite lstrip_blank_app by done.
    change (String ":" ("memory:" +:+ r)) with (":memory:" +:+ r).
    by rewrite rstrip_solid_app.
  - intros Hne Hnot. rewrite negb_true_iff. apply not_true_is_false.
    rewrite String.eqb_eq. intros Hlow.
    destruct location as [|c s]; [done|].
    unfold Py.or_, Py.truthy, Py.strip in Hlow.
    destruct (lstrip_split (String c s)) as (l & Hl & Hbl).
    destruct (rstrip_split (Py.lstrip (String c s))) as (r & Hr & Hbr).
    apply (Hnot l (Py.rstrip (Py.lstrip (String c s))) r); try done.
    by rewrite <- Hr, <- Hl.
Qed.

End location.

(** C8 as stated fails: the empty string and the token between spaces are
    not the reserved token, and the storage is volatile. *)
Lemma persistent_counterexample :
  let volatile location :=
    exists _loc, fst (SQLiteStorage.__init__ location (healthy ∅)) = Return _loc
                 /\ SQLiteStorage.persistent _loc = false in
  "" <> ":memory:" /\ volatile ""
  /\ " :memory: " <> ":memory:" /\ volatile " :memory: ".
Proof.
  repeat split; try discriminate; eexists; split; reflexivity.
Qed.

(** A path is persistent, and the token between spaces is volatile. *)
Lemma persistent_by_design_witness :
  "/tmp/registers.db" <> ""
  /\ (exists _loc,
        fst (SQLiteStorage.__init__ "/tmp/registers.db" (healthy ∅)) = Return _loc
        /\ SQLiteStorage.persistent _loc = true)
  /\ (exists _loc,
        fst (SQLiteStorage.__init__ " :memory: " (healthy ∅)) = Return _loc
        /\ SQLiteStorage.persistent _loc = false).
Proof.
  split; [discriminate|]. split.
  - destruct (persistent_by_design "/tmp/registers.db" ∅ [])
      as (_loc & Hloc & _ & Hpersistent).
    exists _loc. split; [exact Hloc|]. apply Hpersistent; [discriminate|].
    intros l tok r Heq Hl Hr Hlow.
    destruct (lower_token tok Hlow) as (s & -> & _).
    destruct l as [|c l].
    + discriminate Heq.
    + injection Heq as <- _. discriminate Hl.
  - destruct (persistent_by_design " :memory: " ∅ [])
      as (_loc & Hloc & Hvolatile & _).
    exists _loc. split; [exact Hloc|]. apply Hvolatile. right.
    exists " ", " ". by repeat split.
Defined.

(** * Further properties of the two classes *)

(** ** Methods on a connection whose engine may fail *)

Section any_connection.
Context `{Imports}.

Lemma storage_get_any name c :
  exists o fs,
    SQLiteStorage.get name c = (o, mkConn (table c) (journal c) fs)
    /\ (o = Return (decode <$> table c !! name)
        \/ o = Raise StorageError \/ o = Raise OperationalError
        \/ o = Raise DatabaseError).
Proof.
  unfold SQLiteStorage.get, SQLiteStorage._execute, Sqlite3.select_row,
    Sqlite3.query, Sqlite3.fetch, Sqlite3.call, try_except, bind, ret, raise.
  destruct c as [t j [|[] [|[] fs]]]; simpl;
    destruct (t !! name) as [[m b]|]; simpl; do 2 eexists;
    (split; [reflexivity|]); auto.
Qed.

Lemma storage_set_any name e c :
  fst (SQLiteStorage.set name e c) = Return tt
  \/ fst (SQLiteStorage.set name e c) = Raise StorageError
  \/ fst (SQLiteStorage.set name e c) = Raise DatabaseError.
Proof.
  destruct c as [t j [|[] [|[] fs]]]; simpl; auto.
Qed.

Lemma executemany_any names : forall c,
  fst (Sqlite3.executemany Sqlite3.delete_row names c) = Return tt
  \/ fst (Sqlite3.executemany Sqlite3.delete_row names c) = Raise OperationalError
  \/ fst (Sqlite3.executemany Sqlite3.delete_row names c) = Raise DatabaseError.
Proof.
  induction names as [|n names IH]; intros c; simpl; [by left|].
  unfold bind at 1.
  destruct c as [t j [|[] fs]]; simpl; auto.
Qed.

Lemma storage_delete_any names c :
  fst (SQLiteStorage.delete names c) = Return tt
  \/ fst (SQLiteStorage.delete names c) = Raise StorageError
  \/ fst (SQLiteStorage.delete names c) = Raise DatabaseError.
Proof.
  unfold SQLiteStorage.delete, try_except, bind.
  destruct (executemany_any names c) as [Hok|[Hfail|Hfail]];
    destruct (Sqlite3.executemany Sqlite3.delete_row names c) as [[[]|ex] c'];
    simpl in *; try discriminate.
  - destruct c' as [t j [|[] fs]]; simpl; auto.
  - injection Hfail as ->. auto.
  - injection Hfail as ->. auto.
Qed.

(** X1. The methods that read ([keys], [__len__], [get], [__getitem__],
    [get_name_at_index]) leave the rows and the journal of writes as they
    are, whether they return or raise, and whatever the engine answers. *)
Theorem reads_never_write c :
  let same (c' : Conn) := table c' = table c /\ journal c' = journal c in
  same (snd (Repository.keys c))
  /\ same (snd (Repository.__len__ c))
  /\ (forall name, same (snd (Repository.get name c)))
  /\ (forall item, same (snd (Repository.__getitem__ item c)))
  /\ (forall index, same (snd (Repository.get_name_at_index index c))).
Proof.
  intros same. subst same. cbn beta.
  split; [|split; [|split; [|split]]].
  - destruct c as [t j [|[] [|[] fs]]]; by split.
  - destruct c as [t j [|[] [|[] fs]]]; by split.
  - intros name. unfold Repository.get.
    destruct (storage_get_any name c) as (o & fs & -> & _). by split.
  - intros item. unfold Repository.__getitem__, Repository.get, bind.
    destruct (storage_get_any item c) as (o & fs & -> & [-> |[-> |[-> | ->]]]);
      try (by split).
    by destruct (table c !! item).
  - intros index.
    unfold Repository.get_name_at_index, SQLiteStorage.get_name_at_index,
      SQLiteStorage.get_names, SQLiteStorage._execute, Sqlite3.select_names,
      Sqlite3.query, Sqlite3.fetch, Sqlite3.call, try_except, bind, ret, raise.
    destruct c as [t j [|[] [|[] fs]]]; simpl; try (by split);
      by destruct (Py.getitem _ index).
Qed.

(** X2. How the storage wraps the failures of the engine.  [set] and
    [delete] never let a [sqlite3.OperationalError] out: they return, raise
    [StorageError], or pass on another error of [sqlite3].
    [get_name_at_index] never raises [IndexError].  The reads are less
    tight: an [OperationalError] while fetching, after the statement ran,
    leaves [count], [get_names] and [get] as it is, and so does one from
    [sqlite3.connect] in [__init__]. *)
Theorem writes_wrap_OperationalError c :
  (forall name e,
      fst (SQLiteStorage.set name e c) = Return tt
      \/ fst (SQLiteStorage.set name e c) = Raise StorageError
      \/ fst (SQLiteStorage.set name e c) = Raise DatabaseError)
  /\ (forall names,
        fst (SQLiteStorage.delete names c) = Return tt
        \/ fst (SQLiteStorage.delete names c) = Raise StorageError
        \/ fst (SQLiteStorage.delete names c) = Raise DatabaseError)
  /\ (forall index, fst (SQLiteStorage.get_name_at_index index c) <> Raise IndexError)
  /\ (forall fs name,
        let c' := mkConn (table c) (journal c) (Done :: Operational :: fs) in
        fst (SQLiteStorage.count c') = Raise OperationalError
        /\ fst (SQLiteStorage.get_names c') = Raise OperationalError
        /\ fst (SQLiteStorage.get name c') = Raise OperationalError)
  /\ (forall fs location,
        fst (SQLiteStorage.__init__ location
               (mkConn (table c) (journal c) (Operational :: fs)))
        = Raise OperationalError
        /\ fst (SQLiteStorage.__init__ location
                  (mkConn (table c) (journal c) (Done :: Operational :: fs)))
           = Raise StorageError).
Proof.
  split; [|split; [|split; [|split]]].
  - intros name e. apply storage_set_any.
  - intros names. apply storage_delete_any.
  - intros index.
    unfold SQLiteStorage.get_name_at_index, SQLiteStorage.get_names,
      SQLiteStorage._execute, Sqlite3.select_names, Sqlite3.query,
      Sqlite3.fetch, Sqlite3.call, try_except, bind, ret, raise.
    destruct c as [t j [|[] [|[] fs]]]; simpl; try discriminate;
      by destruct (Py.getitem _ index).
  - intros fs name c'. by repeat split.
  - intros fs location. by split.
Qed.

(** X3. [MissingRegisterError] and [ConflictError] have one reason each,
    whatever the engine answers: [create] never raises
    [MissingRegisterError]; [set] and [rs[name]] raise it for their own name
    and only when no row has that name; [set] and [create] raise
    [ConflictError] only when the row is there and [convert] refuses the
    value; [delete] raises neither. *)
Theorem missing_and_conflict_reasons c :
  (forall name v m n,
      fst (Repository.create name v m c) <> Raise (MissingRegisterError n))
  /\ (forall name v n,
        fst (Repository.set name v c) = Raise (MissingRegisterError n) ->
        n = name /\ table c !! name = None)
  /\ (forall item n,
        fst (Repository.__getitem__ item c) = Raise (MissingRegisterError n) ->
        n = item /\ table c !! item = None)
  /\ (forall name v,
        fst (Repository.set name v c) = Raise ConflictError ->
        exists r, table c !! name = Some r /\ convert (value (decode r)) v = None)
  /\ (forall name v m,
        fst (Repository.create name v m c) = Raise ConflictError ->
        exists r, table c !! name = Some r
                  /\ convert (value (decode r)) (relaxed v) = None)
  /\ (forall wildcard n,
        fst (Repository.delete wildcard c) <> Raise (MissingRegisterError n)
        /\ fst (Repository.delete wildcard c) <> Raise ConflictError).
Proof.
  assert (Hset : forall name v ex,
    fst (Repository.set name v c) = Raise ex ->
    (ex = MissingRegisterError name /\ table c !! name = None)
    \/ (ex = ConflictError
        /\ exists r, table c !! name = Some r /\ convert (value (decode r)) v = None)
    \/ ex = StorageError \/ ex = OperationalError \/ ex = DatabaseError).
  { intros name v ex. unfold Repository.set, bind.
    destruct (storage_get_any name c) as (o & fs & -> & [-> |[-> |[-> | ->]]]);
      step; try (intros [= <-]; by auto).
    destruct (table c !! name) as [r|] eqn:Hr; step.
    - destruct (convert _ v) eqn:Hc; step.
      + intros Hs.
        match type of Hs with
        | fst (SQLiteStorage.set ?n ?e ?c') = _ =>
            destruct (storage_set_any n e c') as [?|[?|?]]
        end; [congruence|right; right; left; congruence|
              right; right; right; right; congruence].
      + intros [= <-]. right. left. split; [done|]. by exists r.
    - intros [= <-]. by left. }
  assert (Hcreate : forall name v m ex,
    fst (Repository.create name v m c) = Raise ex ->
    (ex = ConflictError
     /\ exists r, table c !! name = Some r
                  /\ convert (value (decode r)) (relaxed v) = None)
    \/ ex = StorageError \/ ex = OperationalError \/ ex = DatabaseError).
  { intros name v m ex. unfold Repository.create, try_except.
    specialize (Hset name (relaxed v)).
    destruct (Repository.set name (relaxed v) c) as [[[]|ex'] c'] eqn:Hs;
      step; [done|].
    specialize (Hset ex' eq_refl).
    destruct ex'; step;
      try (intros [= <-]; destruct Hset as [[? _]|[?|[?|[?|?]]]];
           by (discriminate || auto)).
    intros Hs'.
    match type of Hs' with
    | fst (SQLiteStorage.set ?n ?e ?c') = _ =>
        destruct (storage_set_any n e c') as [?|[?|?]]
    end; [congruence|right; left; congruence|right; right; right; congruence]. }
  split; [|split; [|split; [|split; [|split]]]].
  - intros name v m n Hr.
    destruct (Hcreate name v m _ Hr) as [[? _]|[?|[?|?]]]; discriminate.
  - intros name v n Hr.
    destruct (Hset name v _ Hr) as [[[= ->] ?]|[[? _]|[?|[?|?]]]];
      by (discriminate || auto).
  - intros item n. unfold Repository.__getitem__, Repository.get, bind.
    destruct (storage_get_any item c) as (o & fs & -> & [-> |[-> |[-> | ->]]]);
      step; try discriminate.
    destruct (table c !! item); step; [discriminate|]. by intros [= <-].
  - intros name v Hr.
    destruct (Hset name v _ Hr) as [[? _]|[[_ ?]|[?|[?|?]]]];
      by (discriminate || auto).
  - intros name v m Hr.
    destruct (Hcreate name v m _ Hr) as [[_ ?]|[?|[?|?]]];
      by (discriminate || auto).
  - intros wildcard n. unfold Repository.delete, Repository.keys,
      SQLiteStorage.get_names, SQLiteStorage._execute, Sqlite3.select_names,
      Sqlite3.query, Sqlite3.fetch, Sqlite3.call, try_except, bind, ret, raise.
    destruct c as [t j [|[] [|[] fs]]]; cbn [faults table journal fst snd];
      try (split; discriminate);
      match goal with
      | |- fst (SQLiteStorage.delete ?ns ?c') <> _ /\ _ =>
          destruct (storage_delete_any ns c') as [?|[?|?]];
          split; congruence
      end.
Qed.

End any_connection.

Section rejections.
Context `{Imports}.

(** X4. When [set] or [create] raises because the register is missing or
    the value is rejected, and more generally when it raises anything but
    [StorageError] or an error of [sqlite3] passed on from the write, no row
    has changed and nothing was written, whatever the engine answers. *)
Theorem rejection_writes_nothing c name ex :
  ex <> StorageError ->
  ex <> DatabaseError ->
  (forall v, fst (Repository.set name v c) = Raise ex ->
     table (snd (Repository.set name v c)) = table c
     /\ journal (snd (Repository.set name v c)) = journal c)
  /\ (forall v m, fst (Repository.create name v m c) = Raise ex ->
        table (snd (Repository.create name v m c)) = table c
        /\ journal (snd (Repository.create name v m c)) = journal c).
Proof.
  intros Hex Hex'.
  assert (Hset : forall v, fst (Repository.set name v c) = Raise ex ->
     table (snd (Repository.set name v c)) = table c
     /\ journal (snd (Repository.set name v c)) = journal c).
  { intros v. unfold Repository.set, bind.
    destruct (storage_get_any name c) as (o & fs & -> & [-> |[-> |[-> | ->]]]);
      step; try done.
    destruct (table c !! name) as [r|]; step; [|done].
    destruct (convert _ v); step; [|done].
    intros Hs.
    match type of Hs with
    | fst (SQLiteStorage.set ?n ?e ?c') = _ =>
        destruct (storage_set_any n e c') as [?|[?|?]]; congruence
    end. }
  split; [exact Hset|].
  intros v m. unfold Repository.create, try_except.
  specialize (Hset (relaxed v)).
  destruct (Repository.set name (relaxed v) c) as [[[]|ex'] c'] eqn:Hs;
    step; [done|].
  destruct ex'; step; try (intros [= <-]; by apply Hset).
  intros Hs'.
  match type of Hs' with
  | fst (SQLiteStorage.set ?n ?e ?c') = _ =>
      destruct (storage_set_any n e c') as [?|[?|?]]; congruence
  end.
Qed.

End rejections.

Lemma rejection_writes_nothing_witness :
  let _ := Demo.imports in
  let c := mkConn (Demo.rows [("foo", (Demo.VBit [true], true))]) []
             [Done; Done; Operational] in
  ConflictError <> StorageError
  /\ ConflictError <> DatabaseError
  /\ fst (Repository.set "foo" (Demo.RBits [true; false]) c) = Raise ConflictError
  /\ table (snd (Repository.set "foo" (Demo.RBits [true; false]) c)) = table c.
Proof.
  intros I c. split; [discriminate|]. split; [discriminate|].
  split; [reflexivity|].
  destruct (@rejection_writes_nothing I c "foo" ConflictError) as [Hset _];
    [discriminate|discriminate|].
  apply (Hset (Demo.RBits [true; false])). reflexivity.
Defined.

(** Why X4 leaves out the errors passed on from the write: the insert ran,
    the commit raised an error that [_execute] does not catch, and the row
    is changed although [set] raised. *)
Example set_failed_commit :
  let _ := Demo.imports in
  let c := mkConn (Demo.rows [("foo", (Demo.VBit [true], true))]) []
             [Done; Done; Done; Other] in
  fst (Repository.set "foo" (Demo.RBool false) c) = Raise DatabaseError
  /\ table (snd (Repository.set "foo" (Demo.RBool false) c)) <> table c.
Proof.
  intros I c. split; [reflexivity|].
  intros Heq. apply (f_equal (fun t => row_value <$> t !! "foo")) in Heq.
  vm_compute in Heq. discriminate Heq.
Qed.

(** ** Reading and writing single registers *)

Section single_register.
Context `{Imports}.

Lemma names_of_insert_stored (t : gmap string Row) n r r' :
  t !! n = Some r -> names_of (<[n := r']> t) = names_of t.
Proof.
  intros Hr. apply names_of_dom. rewrite dom_insert_L.
  apply subseteq_union_1_L, singleton_subseteq_l, elem_of_dom. by eexists.
Qed.

(** X5. [rs[item]] raises [MissingRegisterError] exactly when [item] is not
    among [keys()], and otherwise returns the Entry that [get] returns; in
    both cases the connection is as before. *)
Theorem getitem_missing_iff t j item :
  let c := mkConn t j [] in
  exists names,
    fst (Repository.keys c) = Return names
    /\ (fst (Repository.__getitem__ item c) = Raise (MissingRegisterError item)
        <-> item ∉ names)
    /\ (forall e, fst (Repository.__getitem__ item c) = Return e
                  <-> fst (Repository.get item c) = Return (Some e))
    /\ snd (Repository.__getitem__ item c) = c.
Proof.
  intros c. exists (names_of t). split; [reflexivity|]. subst c.
  unfold Repository.__getitem__, Repository.get, bind.
  rewrite get_reliable, elem_of_names_of.
  destruct (t !! item) as [r|] eqn:Hr; step.
  - repeat split; try done; try (by intros [= ->]).
    intros Hno. destruct Hno. by eexists.
  - repeat split; try done.
Qed.

(** X6. A successful [set]: when the register is stored and the value
    converts, [set] makes exactly one write, the upsert of the converted
    value with the stored flag; [get] then reads that value back through the
    codec, every other register reads as before, and [keys()] and [len()] are
    unchanged. *)
Theorem set_success t j name v e converted :
  fst (Repository.get name (mkConn t j [])) = Return (Some e) ->
  convert (value e) v = Some converted ->
  let c := mkConn t j [] in
  let r := Repository.set name v c in
  fst r = Return tt
  /\ journal (snd r) = j ++ [Upsert name (encode (mkEntry (Some converted) (mutable e)))]
  /\ fst (Repository.get name (snd r))
     = Return (Some (mkEntry (deserialize (serialize (Some converted))) (mutable e)))
  /\ (forall n, n <> name ->
        fst (Repository.get n (snd r)) = fst (Repository.get n c))
  /\ fst (Repository.keys (snd r)) = fst (Repository.keys c)
  /\ fst (Repository.__len__ (snd r)) = fst (Repository.__len__ c).
Proof.
  intros Hget Hconv c r. subst r c. unfold Repository.get in *.
  rewrite get_reliable in Hget. rewrite Repository_set_reliable.
  destruct (t !! name) as [row|] eqn:Hrow; step_in Hget; [|discriminate].
  injection Hget as <-. rewrite Hconv. cbn zeta. step.
  split; [done|]. split; [done|]. split; [|split; [|split]].
  - rewrite get_reliable, lookup_insert_eq. step. f_equal. f_equal.
    unfold decode, encode; simpl. by destruct (row_mutable row =? 0).
  - intros n Hn. by rewrite !get_reliable, lookup_insert_ne.
  - rewrite !keys_reliable. step. f_equal. by eapply names_of_insert_stored.
  - unfold Repository.__len__. rewrite !count_reliable. step.
    by erewrite map_size_insert_Some.
Qed.

(** X7. [create] under a name that is not stored adds that one register:
    [len()] grows by one, [keys()] gains the name and keeps the others, and
    every other register reads as before. *)
Theorem create_fresh t j name v m :
  fst (Repository.get name (mkConn t j [])) = Return None ->
  let c := mkConn t j [] in
  let r := Repository.create name v m c in
  exists names names' count,
    fst (Repository.keys c) = Return names
    /\ fst (Repository.__len__ c) = Return count
    /\ fst r = Return tt
    /\ fst (Repository.keys (snd r)) = Return names'
    /\ fst (Repository.__len__ (snd r)) = Return (count + 1)
    /\ (forall n, n ∈ names' <-> n = name \/ n ∈ names)
    /\ (forall n, n <> name ->
          fst (Repository.get n (snd r)) = fst (Repository.get n c)).
Proof.
  intros Hget c r. subst r c. unfold Repository.get in *.
  rewrite get_reliable in Hget. rewrite Repository_create_reliable.
  destruct (t !! name) as [row|] eqn:Hrow; step_in Hget; [discriminate|].
  cbn zeta. step.
  exists (names_of t), (names_of (<[name := encode (mkEntry (Some v) m)]> t)),
    (Z.of_nat (size t)).
  split; [reflexivity|]. split; [reflexivity|]. split; [reflexivity|].
  split; [reflexivity|]. split; [|split].
  - unfold Repository.__len__. rewrite count_reliable. step.
    rewrite map_size_insert_None by done. f_equal. lia.
  - intros n. rewrite !elem_of_names_of.
    destruct (decide (n = name)) as [->|Hne].
    + rewrite lookup_insert_eq. split; [by left|by eexists].
    + rewrite lookup_insert_ne by done. split; [by right|by intros [?|?]].
  - intros n Hn. by rewrite !get_reliable, lookup_insert_ne.
Qed.

End single_register.

(** The doctest of [set]: the register of one bit takes [False]. *)
Lemma set_success_witness :
  let _ := Demo.imports in
  let c := healthy (Demo.rows [("foo", (Demo.VBit [true], true)); ("bar", (Demo.VEmpty, false))]) in
  let r := Repository.set "foo" (Demo.RBool false) c in
  fst (Repository.get "foo" c) = Return (Some (mkEntry (Some (Demo.VBit [true])) true))
  /\ convert (Some (Demo.VBit [true])) (Demo.RBool false) = Some (Demo.VBit [false])
  /\ fst r = Return tt
  /\ fst (Repository.keys (snd r)) = fst (Repository.keys c).
Proof.
  intros I c r. split; [reflexivity|]. split; [reflexivity|].
  destruct (@set_success I (table c) [] "foo" (Demo.RBool false)
              (@mkEntry Demo.imports (Some (Demo.VBit [true])) true)
              (Demo.VBit [false]))
    as (Hok & _ & _ & _ & Hkeys & _); [reflexivity|reflexivity|].
  split; [exact Hok|exact Hkeys].
Defined.

Lemma create_fresh_witness :
  let _ := Demo.imports in
  let c := healthy (Demo.rows [("foo", (Demo.VBit [true], true))]) in
  let r := Repository.create "bar" Demo.VEmpty false c in
  fst (Repository.get "bar" c) = Return None
  /\ fst r = Return tt
  /\ fst (Repository.__len__ c) = Return 1
  /\ fst (Repository.__len__ (snd r)) = Return (1 + 1).
Proof.
  intros I c r. split; [reflexivity|].
  destruct (@create_fresh I (table c) [] "bar" Demo.VEmpty false)
    as (names & names' & count & _ & Hlen & Hok & _ & Hlen' & _); [reflexivity|].
  split; [exact Hok|]. split; [reflexivity|].
  vm_compute in Hlen. injection Hlen as <-. exact Hlen'.
Defined.

(** ** Deletion *)

Section deletion.
Context `{Imports}.

Lemma StronglySorted_list_filter {A} (R : relation A) (f : A -> bool) l :
  StronglySorted R l -> StronglySorted R (List.filter f l).
Proof.
  induction 1 as [|x l Hl IH Hx]; simpl; [constructor|].
  destruct (f x); [|done]. constructor; [done|].
  apply List.Forall_forall. intros y [Hy _]%filter_In.
  by apply (proj1 (List.Forall_forall _ _) Hx).
Qed.

(** The names left by [without] are the former names, those deleted apart,
    in the same order. *)
Lemma names_of_without ns t :
  names_of (without ns t)
  = List.filter (fun n => negb (bool_decide (n ∈ ns))) (names_of t).
Proof.
  apply (Sorted_unique Py.le).
  - apply Sorted_names_of.
  - apply StronglySorted_Sorted, StronglySorted_list_filter.
    apply (Sorted_StronglySorted Py.le), Sorted_names_of.
  - apply NoDup_Permutation.
    + apply NoDup_names_of.
    + apply NoDup_ListNoDup, List.NoDup_filter, NoDup_ListNoDup, NoDup_names_of.
    + intros n. split.
      * intros [r Hr]%elem_of_names_of. rewrite lookup_without in Hr.
        case_decide as Hin; [done|]. apply list_elem_of_In, filter_In. split.
        -- apply list_elem_of_In, elem_of_names_of. by eexists.
        -- by apply negb_true_iff, bool_decide_eq_false.
      * intros [Hin Hf]%list_elem_of_In%filter_In.
        apply list_elem_of_In, elem_of_names_of in Hin.
        apply negb_true_iff, bool_decide_eq_false in Hf.
        apply elem_of_names_of. by rewrite lookup_without, decide_False.
Qed.

(** X8. [SQLiteStorage.delete(names)] removes the given names and ignores
    those that are not stored: afterwards [get] finds nothing under a given
    name and what it found before under any other, [get_names()] is the
    former list without the given names, in the same order, and the rows are
    unchanged when none of the given names is stored. *)
Theorem storage_delete_names t j names :
  let c := mkConn t j [] in
  let r := SQLiteStorage.delete names c in
  exists before,
    fst (SQLiteStorage.get_names c) = Return before
    /\ fst r = Return tt
    /\ (forall n, fst (SQLiteStorage.get n (snd r))
                  = if decide (n ∈ names) then Return None
                    else fst (SQLiteStorage.get n c))
    /\ fst (SQLiteStorage.get_names (snd r))
       = Return (List.filter (fun n => negb (bool_decide (n ∈ names))) before)
    /\ ((forall n, n ∈ names -> n ∉ before) -> table (snd r) = t).
Proof.
  intros c r. subst r c. exists (names_of t). rewrite delete_reliable.
  split; [reflexivity|]. split; [reflexivity|]. step. split; [|split].
  - intros n. rewrite !get_reliable, lookup_without. step. by case_decide.
  - rewrite get_names_reliable. step. f_equal. apply names_of_without.
  - intros Hnone. cbn [table]. apply map_eq. intros n. rewrite lookup_without.
    case_decide as Hin; [|done]. apply Hnone in Hin.
    rewrite elem_of_names_of in Hin. symmetry.
    by apply eq_None_not_Some.
Qed.

(** X9. After [Repository.delete(wildcard)], [keys()] is the former list
    without the matching names, in the same order, and [len()] is its length;
    the calls written are one delete for each matching name, in the order of
    [keys()]; a second [delete] of the same wildcard writes nothing. *)
Theorem delete_keys t j wildcard :
  let c := mkConn t j [] in
  let r := Repository.delete wildcard c in
  exists before,
    fst (Repository.keys c) = Return before
    /\ fst (Repository.keys (snd r))
       = Return (List.filter (fun n => negb (fnmatchcase n wildcard)) before)
    /\ fst (Repository.__len__ (snd r))
       = Return (Z.of_nat (length (List.filter
                                     (fun n => negb (fnmatchcase n wildcard)) before)))
    /\ journal (snd r)
       = j ++ (Remove <$> List.filter (fun n => fnmatchcase n wildcard) before)
    /\ Repository.delete wildcard (snd r) = (Return tt, snd r).
Proof.
  intros c r. subst r c. exists (names_of t). rewrite Repository_delete_reliable.
  fold (names_of t). cbn zeta. step.
  set (ns := List.filter (fun n => fnmatchcase n wildcard) (names_of t)).
  assert (Hnames : names_of (without ns t)
                   = List.filter (fun n => negb (fnmatchcase n wildcard)) (names_of t)).
  { rewrite names_of_without. apply filter_ext_in. intros n Hn. f_equal.
    destruct (fnmatchcase n wildcard) eqn:Hm.
    - apply bool_decide_eq_true. apply list_elem_of_In, filter_In. by split.
    - apply bool_decide_eq_false. intros [_ Hm']%list_elem_of_In%filter_In.
      congruence. }
  split; [reflexivity|]. split; [|split; [|split]].
  - rewrite keys_reliable. step. by f_equal.
  - unfold Repository.__len__. rewrite count_reliable. step.
    by rewrite <- length_names_of, Hnames.
  - done.
  - rewrite Repository_delete_reliable. fold (names_of (without ns t)).
    cbn zeta. rewrite Hnames, filter_nil_iff.
    + unfold without at 2. simpl. by rewrite app_nil_r.
    + intros n [_ Hn]%list_elem_of_In%filter_In. by apply negb_true_iff.
Qed.

End deletion.

(** ** The storage as a map, and enumeration by index *)

Section storage_map.
Context `{Imports}.

(** X10. [SQLiteStorage.set] is an upsert: [get] under the name then gives
    the value as the codec reads it back and the flag as written, every other
    name reads as before, [count()] grows by one for a new name and stays for
    a stored one, and of two writes to one name only the second shows. *)
Theorem storage_set_upsert t j name e :
  let c := mkConn t j [] in
  let r := SQLiteStorage.set name e c in
  fst r = Return tt
  /\ fst (SQLiteStorage.get name (snd r))
     = Return (Some (mkEntry (deserialize (serialize (value e))) (mutable e)))
  /\ (forall n, n <> name ->
        fst (SQLiteStorage.get n (snd r)) = fst (SQLiteStorage.get n c))
  /\ fst (SQLiteStorage.count (snd r))
     = match fst (SQLiteStorage.get name c) with
       | Return None => Return (Z.of_nat (size t) + 1)
       | _ => fst (SQLiteStorage.count c)
       end
  /\ (forall e2, table (snd (SQLiteStorage.set name e2 (snd r)))
                 = table (snd (SQLiteStorage.set name e2 c))).
Proof.
  intros c r. subst r c. rewrite set_reliable. step.
  split; [done|]. split; [|split; [|split]].
  - rewrite get_reliable, lookup_insert_eq. step. do 2 f_equal.
    unfold decode, encode; simpl. by destruct (mutable e).
  - intros n Hn. by rewrite !get_reliable, lookup_insert_ne.
  - rewrite !count_reliable, get_reliable. step.
    destruct (t !! name) as [row|] eqn:Hrow; step.
    + by erewrite map_size_insert_Some.
    + rewrite map_size_insert_None by done. f_equal. lia.
  - intros e2. rewrite !set_reliable. cbn [snd table].
    apply insert_insert_eq.
Qed.

(** X11. [get_name_at_index] walks [keys()]: for every index [i] from zero
    on it returns the [i]-th key, [None] past the end, so that counting up
    from zero until [None] lists the keys in order; and a name returned for
    any index, negative ones included, is one of the keys. *)
Theorem index_enumerates_keys t j :
  let c := mkConn t j [] in
  exists names,
    fst (Repository.keys c) = Return names
    /\ (forall i : nat,
          fst (Repository.get_name_at_index (Z.of_nat i) c) = Return (names !! i))
    /\ (forall index n,
          fst (Repository.get_name_at_index index c) = Return (Some n) ->
          n ∈ names /\ exists e, fst (Repository.get n c) = Return (Some e)).
Proof.
  intros c. subst c. exists (names_of t). split; [reflexivity|]. split.
  - intros i. rewrite get_name_at_index_reliable. step. f_equal.
    unfold Py.getitem. rewrite (proj2 (Z.leb_le 0 _)) by lia.
    by rewrite Nat2Z.id.
  - intros index n. rewrite get_name_at_index_reliable. step. intros [= Hn].
    assert (Hin : n ∈ names_of t).
    { unfold Py.getitem in Hn.
      destruct (0 <=? index); [|destruct (0 <=? _); [|done]];
        by eapply list_elem_of_lookup_2. }
    split; [done|]. apply elem_of_names_of in Hin as [r Hr].
    unfold Repository.get. rewrite get_reliable, Hr. by eexists.
Qed.

(** X12. What [access] returns for a stored register is what [get] reads
    right after it, provided the codec reads the converted value back as it
    was written: the Entry built locally and returned without a second query
    agrees with the storage. *)
Theorem access_then_get t j name v e :
  fst (Repository.get name (mkConn t j [])) = Return (Some e) ->
  (forall converted, convert (value e) (relaxed v) = Some converted ->
     deserialize (serialize (Some converted)) = Some converted) ->
  let r := Repository.access name v (mkConn t j []) in
  exists e', fst r = Return e'
             /\ fst (Repository.get name (snd r)) = Return (Some e').
Proof.
  intros Hget Hcodec r. subst r. unfold Repository.get in *.
  rewrite get_reliable in Hget. rewrite Repository_access_reliable.
  destruct (t !! name) as [row|] eqn:Hrow; step_in Hget; [|discriminate].
  injection Hget as <-.
  destruct (mutable (decode row)) eqn:Hm;
    [destruct (convert _ _) as [converted|] eqn:Hc|]; step.
  - eexists. split; [reflexivity|].
    rewrite get_reliable, lookup_insert_eq. step. do 2 f_equal.
    unfold decode at 1, encode; cbn [row_value row_mutable value mutable].
    by rewrite (Hcodec converted).
  - eexists. split; [reflexivity|]. by rewrite get_reliable, Hrow.
  - eexists. split; [reflexivity|]. by rewrite get_reliable, Hrow.
Qed.

(** X13. An empty repository: [keys()] is empty and [len()] is zero,
    [get_name_at_index] and [get] give [None] for every index and name,
    [set] and [rs[name]] raise [MissingRegisterError], and [delete] of any
    wildcard changes nothing. *)
Theorem empty_repository j :
  let c := mkConn ∅ j [] in
  fst (Repository.keys c) = Return []
  /\ fst (Repository.__len__ c) = Return 0
  /\ (forall index, fst (Repository.get_name_at_index index c) = Return None)
  /\ (forall name, fst (Repository.get name c) = Return None)
  /\ (forall name v,
        Repository.set name v c = (Raise (MissingRegisterError name), c))
  /\ (forall item,
        Repository.__getitem__ item c = (Raise (MissingRegisterError item), c))
  /\ (forall wildcard, Repository.delete wildcard c = (Return tt, c)).
Proof.
  intros c. subst c.
  assert (Hnames : names_of (∅ : gmap string Row) = []).
  { unfold names_of. by rewrite map_to_list_empty. }
  split; [|split; [|split; [|split; [|split; [|split]]]]].
  - by rewrite keys_reliable, Hnames.
  - reflexivity.
  - intros index. rewrite get_name_at_index_reliable, Hnames. step. f_equal.
    unfold Py.getitem. simpl. by destruct (0 <=? index); [|destruct (0 <=? _)].
  - intros name. unfold Repository.get. by rewrite get_reliable, lookup_empty.
  - intros name v. by rewrite Repository_set_reliable, lookup_empty.
  - intros item. unfold Repository.__getitem__, Repository.get, bind.
    by rewrite get_reliable, lookup_empty.
  - intros wildcard. rewrite Repository_delete_reliable. fold (names_of (∅ : gmap string Row)).
    rewrite Hnames. simpl. by rewrite app_nil_r.
Qed.

End storage_map.

Lemma access_then_get_witness :
  let _ := Demo.imports in
  let c := healthy (Demo.rows [("foo", (Demo.VBit [true], true))]) in
  let r := Repository.access "foo" (Demo.VBit [false]) c in
  fst (Repository.get "foo" c) = Return (Some (mkEntry (Some (Demo.VBit [true])) true))
  /\ exists e', fst r = Return e' /\ fst (Repository.get "foo" (snd r)) = Return (Some e').
Proof.
  intros I c r. split; [reflexivity|].
  apply (@access_then_get I (table c) [] "foo" (Demo.VBit [false])
           (@mkEntry Demo.imports (Some (Demo.VBit [true])) true)).
  - reflexivity.
  - intros converted _. apply Demo_codec_round_trip.
Defined.

(** ** Values kept by the repository, and the location of the storage *)

Section invariants.
Context `{Imports}.

Lemma perform_rows call t j :
  exists t' j',
    snd (perform call (mkConn t j [])) = mkConn t' j' []
    /\ forall n r, t' !! n = Some r ->
         t !! n = Some r \/ exists v m, r = encode (mkEntry (Some v) m).
Proof.
  assert (Hins : forall name v m n r,
    <[name := encode (mkEntry (Some v) m)]> t !! n = Some r ->
    t !! n = Some r \/ exists v m, r = encode (mkEntry (Some v) m)).
  { intros name v m n r. destruct (decide (name = n)) as [->|Hne].
    - rewrite lookup_insert_eq. intros [= <-]. right. by do 2 eexists.
    - rewrite lookup_insert_ne by done. by left. }
  assert (Hset : forall n v, exists t' j',
    snd (Repository.set n v (mkConn t j [])) = mkConn t' j' []
    /\ forall n r, t' !! n = Some r ->
         t !! n = Some r \/ exists v m, r = encode (mkEntry (Some v) m)).
  { intros n v. rewrite Repository_set_reliable.
    destruct (t !! n); [destruct (convert _ v)|]; do 2 eexists;
      (split; [reflexivity|]); eauto. }
  destruct call as [n v|n v m|n v|w]; unfold perform.
  - apply Hset.
  - rewrite Repository_create_reliable.
    destruct (t !! n); [apply Hset|].
    do 2 eexists. split; [reflexivity|]. eauto.
  - unfold bind. rewrite Repository_access_reliable.
    destruct (t !! n) as [r|];
      [destruct (mutable (decode r)); [destruct (convert _ _)|]|];
      do 2 eexists; (split; [reflexivity|]); eauto.
  - rewrite Repository_delete_reliable. do 2 eexists. split; [reflexivity|].
    intros n r. rewrite lookup_without. case_decide; [done|by left].
Qed.

Lemma script_rows calls : forall t j,
  exists t' j',
    snd (script calls (mkConn t j [])) = mkConn t' j' []
    /\ forall n r, t' !! n = Some r ->
         t !! n = Some r \/ exists v m, r = encode (mkEntry (Some v) m).
Proof.
  induction calls as [|call calls IH]; intros t j; simpl.
  - do 2 eexists. split; [reflexivity|]. by left.
  - destruct (perform_rows call t j) as (t1 & j1 & H1 & Hrows1).
    unfold bind, try_except.
    destruct (perform call (mkConn t j [])) as [[[]|ex] c1];
      simpl in H1; subst c1; simpl;
      destruct (IH t1 j1) as (t2 & j2 & H2 & Hrows2);
      exists t2, j2; (split; [exact H2|]);
      intros n r Hr; destruct (Hrows2 n r Hr) as [Hr1|?]; auto.
Qed.

(** X14. The repository stores values only: when the codec reads back every
    value as written and every register of the storage reads with a value,
    then after any sequence of calls of [set], [create], [access] and
    [delete] every register still reads with a value, never with [None]. *)
Theorem script_stores_values calls t j :
  (forall v, deserialize (serialize (Some v)) = Some v) ->
  (forall n e, fst (Repository.get n (mkConn t j [])) = Return (Some e) ->
     is_Some (value e)) ->
  forall n e,
    fst (Repository.get n (snd (script calls (mkConn t j [])))) = Return (Some e) ->
    is_Some (value e).
Proof.
  intros Hcodec Hbefore n e.
  destruct (script_rows calls t j) as (t' & j' & -> & Hrows).
  unfold Repository.get in *. rewrite get_reliable.
  destruct (t' !! n) as [r|] eqn:Hr; step; [|done]. intros [= <-].
  destruct (Hrows n r Hr) as [Hold|(v & m & ->)].
  - apply (Hbefore n). by rewrite get_reliable, Hold.
  - unfold decode, encode; simpl. rewrite Hcodec. by eexists.
Qed.

Lemma lstrip_blank s : blank s = true -> Py.lstrip s = "".
Proof.
  induction s as [|c s IH]; [done|]. simpl.
  intros [-> Hs]%andb_true_iff. by apply IH.
Qed.

(** X15. [__init__] keeps the location without the white space around it:
    a location that begins and ends with a character other than white space
    becomes [_loc] as it is, whatever white space surrounds it; a location of
    white space only, not empty, gives the empty [_loc], for which
    [persistent] is true.  The registers are not touched. *)
Theorem init_location t j :
  let c := mkConn t j [] in
  (forall l first rest r,
      blank l = true -> blank r = true ->
      Py.isspace first = false -> ends_solid (String first rest) = true ->
      SQLiteStorage.__init__ (l +:+ String first rest +:+ r) c
      = (Return (String first rest), c))
  /\ (forall location,
        location <> "" -> blank location = true ->
        SQLiteStorage.__init__ location c = (Return "", c)
        /\ SQLiteStorage.persistent "" = true).
Proof.
  intros c. subst c. split.
  - intros l first rest r Hl Hr Hfirst Hsolid. rewrite init_reliable.
    do 2 f_equal.
    assert (Py.or_ (l +:+ String first rest +:+ r) SQLiteStorage._LOCATION_VOLATILE
            = l +:+ String first rest +:+ r) as -> by (by destruct l).
    unfold Py.strip. rewrite append_cons, lstrip_blank_app by done.
    by rewrite <- append_cons, rstrip_solid_app.
  - intros location Hne Hblank. split; [|reflexivity].
    rewrite init_reliable. do 2 f_equal.
    destruct location as [|c s]; [done|].
    unfold Py.or_, Py.truthy, Py.strip. by rewrite lstrip_blank.
Qed.

End invariants.

Lemma script_stores_values_witness :
  let _ := Demo.imports in
  let calls := [CallCreate "foo" (Demo.VBit [true]) true;
                CallSet "foo" (Demo.RBool false);
                CallAccess "foo" (Demo.VBit [true])] in
  let c' := snd (script calls (healthy ∅)) in
  fst (Repository.get "foo" c') = Return (Some (mkEntry (Some (Demo.VBit [true])) true))
  /\ is_Some (value (mkEntry (Some (Demo.VBit [true])) true)).
Proof.
  intros I calls c'. split; [vm_compute; reflexivity|].
  apply (@script_stores_values I calls ∅ [] Demo_codec_round_trip) with (n := "foo").
  - intros n e. unfold Repository.get. rewrite get_reliable, lookup_empty.
    intros Hget. discriminate Hget.
  - vm_compute. reflexivity.
Defined.

Example init_location_example :
  SQLiteStorage.__init__ "  /var/lib/node.db " (healthy ∅)
  = (Return "/var/lib/node.db", healthy ∅)
  /\ fst (SQLiteStorage.__init__ "   " (healthy ∅)) = Return "".
Proof. split; reflexivity. Qed.
